(** * google-photos-exif: companion JSON resolution, EXIF writer and verifier

    A shallow embedding of

    - [src/helpers/get-companion-json-path-for-media-file.ts]
    - [src/helpers/update-exif-metadata.ts]
    - [src/helpers/does-exif-date-match-photo-taken-time.ts]

    JavaScript strings are modelled as [string]: every [ascii] stands for
    one code unit below 256.  Calls that reach the outside world
    ([existsSync], [readdirSync], [exiftool.write], [unlink], [copyFile], ...)
    are events of a free monad; [try]/[catch], early [return] and thrown
    errors are modelled by completion records as in the ECMAScript
    specification. *)

From Stdlib Require Import String Ascii List Bool Arith Lia.
Import ListNotations.
Local Open Scope list_scope.
Local Open Scope string_scope.

Set Implicit Arguments.

(** [++] is the concatenation of strings; lists are concatenated by [+++]. *)
Infix "+++" := (@app _) (at level 60, right associativity).

(* ===================================================================== *)
(** * JavaScript string primitives *)
(* ===================================================================== *)

Module Js.

(** [s.startsWith(p)] *)
Definition startsWith (s p : string) : bool := String.prefix p s.

(** [s.endsWith(p)]: compares the last [p.length] code units of [s]. *)
Definition endsWith (s p : string) : bool :=
  Nat.leb (String.length p) (String.length s) &&
  String.eqb (substring (String.length s - String.length p) (String.length p) s) p.

(** [s.slice(0, end)] for [0 <= end]. *)
Definition sliceTo (s : string) (e : nat) : string := substring 0 e s.

(** [s.slice(start)] for [0 <= start]. *)
Definition sliceFrom (s : string) (b : nat) : string :=
  substring b (String.length s - b) s.

(** [s.slice(start, end)] for [0 <= start], [0 <= end]. *)
Definition slice (s : string) (b e : nat) : string := substring b (e - b) s.

(** [s.slice(0, -k)] for [k > 0]: the end index is [max (length - k) 0]. *)
Definition sliceDropLast (s : string) (k : nat) : string :=
  substring 0 (String.length s - k) s.

(** [l.includes(x)] on an array of strings. *)
Definition includes (l : list string) (x : string) : bool :=
  existsb (String.eqb x) l.

Definition isUpper (c : ascii) : bool :=
  let n := nat_of_ascii c in Nat.leb 65 n && Nat.leb n 90.

Definition isLower (c : ascii) : bool :=
  let n := nat_of_ascii c in Nat.leb 97 n && Nat.leb n 122.

(** Upper-case letters of the Latin-1 supplement: U+00C0..U+00DE except
    the multiplication sign U+00D7. *)
Definition isUpperLatin1 (c : ascii) : bool :=
  let n := nat_of_ascii c in Nat.leb 192 n && Nat.leb n 222 && negb (Nat.eqb n 215).

(** [String.prototype.toLowerCase] on code units below 256. *)
Definition toLowerChar (c : ascii) : ascii :=
  if isUpper c || isUpperLatin1 c then ascii_of_nat (nat_of_ascii c + 32) else c.

Fixpoint toLowerCase (s : string) : string :=
  match s with
  | EmptyString => EmptyString
  | String c s' => String (toLowerChar c) (toLowerCase s')
  end.

(** [s.replace(pat, rep)] with a string pattern: the first occurrence only. *)
Fixpoint replace (pat rep s : string) : string :=
  if String.prefix pat s
  then rep ++ substring (String.length pat) (String.length s - String.length pat) s
  else match s with
       | EmptyString => EmptyString
       | String c s' => String c (replace pat rep s')
       end.

(** Truthiness of a [string | null | undefined] value. *)
Definition truthy (o : option string) : bool :=
  match o with
  | Some s => negb (String.eqb s "")
  | None => false
  end.

End Js.

(* ===================================================================== *)
(** * Regular expressions

    A backtracking matcher for the fragment of ECMAScript regular
    expressions that the sources use: a pattern is a sequence of atoms,
    quantifiers apply to character classes only, capture groups do not
    nest.  Alternatives are explored in the order of the ECMAScript
    semantics (greedy quantifiers try the longest repetition first, lazy
    ones the shortest), and [exec] returns the leftmost match. *)
(* ===================================================================== *)

Module Regex.

Inductive atom : Type :=
| Chr (p : ascii -> bool)        (** one code unit of the class [p] *)
| Star (p : ascii -> bool)       (** [p*], greedy *)
| Plus (p : ascii -> bool)       (** [p+], greedy *)
| PlusLazy (p : ascii -> bool)   (** [p+?] *)
| Mark                           (** an opening or closing parenthesis of a
                                     capture group: records the position *)
| Bos                            (** [^] without the [m] flag *)
| Eos.                           (** [$] without the [m] flag *)

Definition regex := list atom.

(** Character classes. *)

Definition lit (c : ascii) : atom := Chr (Ascii.eqb c).

(** A literal letter under the [i] flag (no [u] flag): code units are
    compared after canonicalisation with [toUpperCase], and a code unit
    of 128 or more never canonicalises to one below 128; so an ASCII
    letter matches exactly its two cases. *)
Definition eqbNoCase (c d : ascii) : bool :=
  Ascii.eqb (Js.toLowerChar c) (if Js.isUpper d then Js.toLowerChar d else d)
  && Nat.ltb (nat_of_ascii d) 128.

Definition litI (c : ascii) : atom := Chr (eqbNoCase c).

(** [\d] *)
Definition digit (c : ascii) : bool :=
  let n := nat_of_ascii c in Nat.leb 48 n && Nat.leb n 57.

(** [.] without the [s] flag: anything but a line terminator (of U+000A,
    U+000D, U+2028 and U+2029 only the first two are below 256). *)
Definition lineTerminator (c : ascii) : bool :=
  let n := nat_of_ascii c in Nat.eqb n 10 || Nat.eqb n 13.

Definition dot (c : ascii) : bool := negb (lineTerminator c).

(** The quantifier loops, over the continuation [k] of the rest of the
    pattern.  [starGreedy]: consume one more code unit of the class first,
    fall back to the continuation when that fails. *)
Fixpoint starGreedy (p : ascii -> bool)
    (k : string -> nat -> option (nat * list nat))
    (rest : string) (pos : nat) : option (nat * list nat) :=
  match rest with
  | String c r =>
      if p c
      then match starGreedy p k r (S pos) with
           | Some m => Some m
           | None => k rest pos
           end
      else k rest pos
  | EmptyString => k rest pos
  end.

(** [starLazy]: try the continuation first, consume one more code unit when
    that fails. *)
Fixpoint starLazy (p : ascii -> bool)
    (k : string -> nat -> option (nat * list nat))
    (rest : string) (pos : nat) : option (nat * list nat) :=
  match k rest pos with
  | Some m => Some m
  | None =>
      match rest with
      | String c r => if p c then starLazy p k r (S pos) else None
      | EmptyString => None
      end
  end.

(** [matchAt re rest pos marks]: match [re] against [rest], the input from
    position [pos] on; the result is the end position of the match and
    the positions recorded at the marks, in order. *)
Fixpoint matchAt (re : regex) (rest : string) (pos : nat) (marks : list nat)
  {struct re} : option (nat * list nat) :=
  match re with
  | [] => Some (pos, marks)
  | Chr p :: re' =>
      match rest with
      | String c r => if p c then matchAt re' r (S pos) marks else None
      | EmptyString => None
      end
  | Star p :: re' =>
      starGreedy p (fun rest pos => matchAt re' rest pos marks) rest pos
  | Plus p :: re' =>
      match rest with
      | String c r =>
          if p c
          then starGreedy p (fun rest pos => matchAt re' rest pos marks) r (S pos)
          else None
      | EmptyString => None
      end
  | PlusLazy p :: re' =>
      match rest with
      | String c r =>
          if p c
          then starLazy p (fun rest pos => matchAt re' rest pos marks) r (S pos)
          else None
      | EmptyString => None
      end
  | Mark :: re' => matchAt re' rest pos (marks +++ [pos])
  | Bos :: re' => if Nat.eqb pos 0 then matchAt re' rest pos marks else None
  | Eos :: re' =>
      match rest with
      | EmptyString => matchAt re' rest pos marks
      | String _ _ => None
      end
  end.

(** The result of a successful [exec]: [index], the end of the match, and
    the marks. *)
Record matchResult : Type := MatchResult {
  index : nat;
  matchEnd : nat;
  marks : list nat
}.

(** Try the start positions from left to right. *)
Fixpoint search (re : regex) (rest : string) (pos : nat) : option matchResult :=
  match matchAt re rest pos [] with
  | Some (e, ms) => Some (MatchResult pos e ms)
  | None =>
      match rest with
      | EmptyString => None
      | String _ r => search re r (S pos)
      end
  end.

(** [re.exec(s)] / [s.match(re)] for a regular expression without the [g] flag. *)
Definition exec (re : regex) (s : string) : option matchResult := search re s 0.

(** [re.test(s)] *)
Definition test (re : regex) (s : string) : bool :=
  match exec re s with Some _ => true | None => false end.

(** [m[0]] *)
Definition matched (s : string) (m : matchResult) : string :=
  Js.slice s (index m) (matchEnd m).

(** The text of the [n]-th capture group (from 1): between the marks
    [2n-2] and [2n-1]. *)
Definition group (s : string) (m : matchResult) (n : nat) : string :=
  Js.slice s (nth (2 * n - 2) (marks m) 0) (nth (2 * n - 1) (marks m) 0).

(** [s.replace(re, rep)] for a regular expression without the [g] flag and a
    replacement without [$] patterns. *)
Definition replace (re : regex) (rep s : string) : string :=
  match exec re s with
  | Some m => Js.sliceTo s (index m) ++ rep ++ Js.sliceFrom s (matchEnd m)
  | None => s
  end.

End Regex.

Import Regex.

(* ===================================================================== *)
(** * Programs with effects

    A program is a tree of calls to the outside world: [Vis e k] performs
    the call [e] and continues with [k] applied to the answer. *)
(* ===================================================================== *)

(** What a trace records of a call of the signature [E] and its answer. *)
Class Observed (E : Type -> Type) : Type := {
  Obs : Type;
  observe : forall X : Type, E X -> X -> Obs
}.

Arguments observe {E _ X} e x.

Section Free.

Variable E : Type -> Type.
Context {observed : Observed E}.

Inductive io (A : Type) : Type :=
| Ret (a : A)
| Vis (X : Type) (e : E X) (k : X -> io A).

Arguments Ret {A} a.
Arguments Vis {A X} e k.

Fixpoint bind {A B : Type} (p : io A) (f : A -> io B) : io B :=
  match p with
  | Ret a => f a
  | Vis e k => Vis e (fun x => bind (k x) f)
  end.

Definition perform {X : Type} (e : E X) : io X := Vis e Ret.

(** [executes p t a]: [p] can perform the calls of [t], with the answers of
    [t], and end with [a].  The answers are arbitrary: nothing is assumed
    of the outside world, which may change between two calls. *)
Fixpoint executes {A : Type} (p : io A) (t : list Obs) (a : A) : Prop :=
  match p with
  | Ret a' => t = [] /\ a = a'
  | Vis e k => exists x t', t = observe e x :: t' /\ executes (k x) t' a
  end.

(** A thrown value. *)
Inductive error : Type :=
| Error (message : string).

(** The result of a call that may throw. *)
Inductive result (A : Type) : Type :=
| Ok (a : A)
| Err (e : error).

Arguments Ok {A} a.
Arguments Err {A} e.

(** How a statement completes: normally, by [return v], or by [throw e]. *)
Inductive completion (R : Type) : Type :=
| Normal
| Return (v : R)
| Throw (e : error).

Arguments Normal {R}.
Arguments Return {R} v.
Arguments Throw {R} e.

Definition stmt (R : Type) : Type := io (completion R).

(** [s1; s2] *)
Definition seq {R : Type} (s1 s2 : stmt R) : stmt R :=
  bind s1 (fun c => match c with
                    | Normal => s2
                    | _ => Ret c
                    end).

(** [try { s } catch (error) { h error }] *)
Definition tryCatch {R : Type} (s : stmt R) (h : error -> stmt R) : stmt R :=
  bind s (fun c => match c with
                   | Throw e => h e
                   | _ => Ret c
                   end).

(** [for (const x of l) { body x }] *)
Fixpoint forOf {A R : Type} (l : list A) (body : A -> stmt R) : stmt R :=
  match l with
  | [] => Ret Normal
  | x :: l' => seq (body x) (forOf l' body)
  end.

(** [if (b) { s }] *)
Definition when {R : Type} (b : bool) (s : stmt R) : stmt R :=
  if b then s else Ret Normal.

(** [const x = f(...); k x] where the call [f(...)] may throw. *)
Definition call {X R : Type} (c : io (result X)) (k : X -> stmt R) : stmt R :=
  bind c (fun r => match r with
                   | Ok x => k x
                   | Err e => Ret (Throw e)
                   end).

End Free.

Arguments Ret {E A} a.
Arguments Vis {E A X} e k.
Arguments Ok {A} a.
Arguments Err {A} e.
Arguments Normal {R}.
Arguments Return {R} v.
Arguments Throw {R} e.
Arguments perform {E X} e.
Arguments executes {E observed A} p t a.
Arguments bind {E A B} p f.
Arguments seq {E R} s1 s2.
Arguments tryCatch {E R} s h.
Arguments forOf {E A R} l body.
Arguments when {E R} b s.
Arguments call {E X R} c k.

Declare Scope js_scope.
Delimit Scope js_scope with js.
Notation "x <- c ;; k" := (bind c (fun x => k))
  (at level 61, c at next level, right associativity) : js_scope.
Notation "'const' x ':=' c ';;' k" := (call c (fun x => k))
  (at level 61, x name, c at next level, right associativity) : js_scope.
Notation "'await' c ';;' k" := (call c (fun _ => k))
  (at level 61, c at next level, right associativity) : js_scope.
Notation "s1 ;;; s2" := (seq s1 s2)
  (at level 62, right associativity) : js_scope.
Local Open Scope js_scope.

(* ===================================================================== *)
(** * The [path] module of Node.js

    The sources use [dirname], [extname], [basename] and [resolve]; the
    programs below take them as a parameter, and [Posix] further down is
    the implementation for POSIX paths. *)
(* ===================================================================== *)

Record PathModule : Type := {
  dirname : string -> string;
  extname : string -> string;
  basename : string -> string -> string;
  resolve : string -> string -> string
}.

(* ===================================================================== *)
(** * get-companion-json-path-for-media-file.ts *)
(* ===================================================================== *)

(** The calls of the [fs] module. [readdirSync] throws when the directory
    cannot be listed; [existsSync] never throws. *)
Inductive fsE : Type -> Type :=
| ExistsSync (path : string) : fsE bool
| ReaddirSync (path : string) : fsE (result (list string)).

(** A call of the [fs] module with its answer. *)
Inductive fsEvent : Type :=
| Existence (path : string) (answer : bool)
| Listing (path : string) (answer : result (list string)).

#[global] Instance fsObserved : Observed fsE := {|
  Obs := fsEvent;
  observe := fun X e =>
    match e in fsE X return X -> fsEvent with
    | ExistsSync p => Existence p
    | ReaddirSync d => Listing d
    end
|}.

Definition existsSync (path : string) : io fsE bool := perform (ExistsSync path).
Definition readdirSync (path : string) : io fsE (result (list string)) :=
  perform (ReaddirSync path).

(** [/[-]edited$/i] *)
Definition reEdited : regex :=
  [lit "-"; litI "e"; litI "d"; litI "i"; litI "t"; litI "e"; litI "d"; Eos].

(** [/(?<name>N)(?<counter>\(\d+\))$/] where [N] is [.*], a greedy run of
    code units other than line terminators. *)
Definition reNameCounter : regex :=
  [Mark; Star dot; Mark; Mark; lit "("; Plus digit; lit ")"; Mark; Eos].

(** The part of that pattern after [.*]. *)
Definition afterName : regex := [Mark; Mark; lit "("; Plus digit; lit ")"; Mark; Eos].

(** [/\(\d+\)\.json$/] *)
Definition reCounterJson : regex :=
  [lit "("; Plus digit; lit ")"; lit "."; lit "j"; lit "s"; lit "o"; lit "n"; Eos].

(** [/\(\d+\)$/] *)
Definition reCounter : regex :=
  [lit "("; Plus digit; lit ")"; Eos].

(** [/^(.+?)\(\d+\)$/] *)
Definition reBaseName : regex :=
  [Bos; Mark; PlusLazy dot; Mark; lit "("; Plus digit; lit ")"; Eos].

(** What the counter patterns recognise, stated without the matcher:
    a counter is an opening parenthesis, one digit or more, and a closing
    parenthesis. *)
Fixpoint allDigits (s : string) : bool :=
  match s with
  | EmptyString => true
  | String c s' => digit c && allDigits s'
  end.

Definition isCounter (c : string) : Prop :=
  exists ds, c = "(" ++ ds ++ ")" /\ ds <> "" /\ allDigits ds = true.

Definition endsWithCounter (s : string) : Prop :=
  exists pre c, s = pre ++ c /\ isCounter c.

(** No code unit of [s] is a line terminator. *)
Fixpoint singleLine (s : string) : bool :=
  match s with
  | EmptyString => true
  | String c s' => dot c && singleLine s'
  end.

(** The line feed, U+000A. *)
Definition lineFeed : string := String (ascii_of_nat 10) "".

Definition videoExtensions : list string :=
  [".mp4"; ".mov"; ".avi"; ".mkv"; ".webm"; ".flv"; ".wmv"; ".m4v"].

Definition imageExtensions : list string :=
  [".jpg"; ".jpeg"; ".png"; ".gif"; ".bmp"; ".heic"; ".webp"].

(** Line 13: [mediaFileNameWithoutExtension.replace(/[-]edited$/i, '')]. *)
Definition stripEdited (mediaFileNameWithoutExtension : string) : string :=
  Regex.replace reEdited "" mediaFileNameWithoutExtension.

(** Lines 19-23: the initial elements of [potentialJsonFileNames]. *)
Definition directNameCandidates
    (mediaFileNameWithoutExtension mediaFileExtension : string) : list string :=
  [ mediaFileNameWithoutExtension ++ ".json";
    mediaFileNameWithoutExtension ++ mediaFileExtension ++ ".json";
    mediaFileNameWithoutExtension ++ mediaFileExtension ++ ".supplemental-metadata.json" ].

(** Lines 29-35: the elements pushed when the stem ends with a counter. *)
Definition counterCandidates
    (mediaFileNameWithoutExtension mediaFileExtension : string) : list string :=
  match Regex.exec reNameCounter mediaFileNameWithoutExtension with
  | Some nameWithCounterMatch =>
      let name := group mediaFileNameWithoutExtension nameWithCounterMatch 1 in
      let counter := group mediaFileNameWithoutExtension nameWithCounterMatch 2 in
      [ name ++ mediaFileExtension ++ counter ++ ".json";
        name ++ mediaFileExtension ++ ".supplemental-metadata" ++ counter ++ ".json" ]
  | None => []
  end.

(** Lines 37-52: the elements pushed when the stem ends with an extra
    character. *)
Definition trailingCharCandidates
    (mediaFileNameWithoutExtension mediaFileExtension : string) : list string :=
  let endsWithExtraDash := Js.endsWith mediaFileNameWithoutExtension "_n-" in
  let endsWithExtraNChar := Js.endsWith mediaFileNameWithoutExtension "_n" in
  let endsWithExtraUnderscore := Js.endsWith mediaFileNameWithoutExtension "_" in
  if endsWithExtraDash || endsWithExtraNChar || endsWithExtraUnderscore
  then
    let baseNameWithoutExtraChar := Js.sliceDropLast mediaFileNameWithoutExtension 1 in
    [ baseNameWithoutExtraChar ++ ".json";
      baseNameWithoutExtraChar ++ mediaFileExtension ++ ".json";
      baseNameWithoutExtraChar ++ mediaFileExtension ++ ".supplemental-metadata.json" ]
  else [].

(** Lines 19-52: the array [potentialJsonFileNames] after all its pushes. *)
Definition potentialJsonFileNames
    (mediaFileNameWithoutExtension mediaFileExtension : string) : list string :=
  directNameCandidates mediaFileNameWithoutExtension mediaFileExtension
  +++ counterCandidates mediaFileNameWithoutExtension mediaFileExtension
  +++ trailingCharCandidates mediaFileNameWithoutExtension mediaFileExtension.

(** Lines 90-95: the conditions under which the second scan takes an
    entry of the directory. *)
Definition jsonScanAccepts (stem file : string) : bool :=
  Js.startsWith file stem && Js.endsWith file ".json"
  && Bool.eqb (Regex.test reCounterJson file) (Regex.test reCounter stem).

Section Resolver.

Variable path : PathModule.

(** [if (existsSync(p)) { return p; }] *)
Definition returnIfExists (p : string) : stmt fsE (option string) :=
  b <- existsSync p ;;
  if b then Ret (Return (Some p)) else Ret Normal.

(** Lines 56-61. *)
Definition directNames (directoryPath : string) (names : list string)
  : stmt fsE (option string) :=
  forOf names (fun potentialJsonFileName =>
    let jsonFilePath := resolve path directoryPath potentialJsonFileName in
    returnIfExists jsonFilePath).

(** Lines 66-79. *)
Definition supplementalScan (directoryPath stem : string) : stmt fsE (option string) :=
  tryCatch
    (const filesInDirectory := readdirSync directoryPath ;;
     forOf filesInDirectory (fun file =>
       when (Js.startsWith file stem && Js.endsWith file ".supplemental-metadata.json")
         (let candidatePath := resolve path directoryPath file in
          returnIfExists candidatePath)))
    (fun _ => Ret Normal).

(** Lines 85-105. *)
Definition jsonScan (directoryPath stem : string) : stmt fsE (option string) :=
  tryCatch
    (const filesInDirectory := readdirSync directoryPath ;;
     forOf filesInDirectory (fun file =>
       when (Js.startsWith file stem && Js.endsWith file ".json")
         (let hasCounterSuffix := Regex.test reCounterJson file in
          let mediaHasCounter := Regex.test reCounter stem in
          when (Bool.eqb hasCounterSuffix mediaHasCounter)
            (let candidatePath := resolve path directoryPath file in
             returnIfExists candidatePath))))
    (fun _ => Ret Normal).

(** Lines 111-127. *)
Definition truncationScan (directoryPath stem : string) : stmt fsE (option string) :=
  tryCatch
    (const filesInDirectory := readdirSync directoryPath ;;
     forOf filesInDirectory (fun file =>
       when (Js.endsWith file ".json")
         (let jsonFileNameWithoutExtension := Js.sliceDropLast file 5 in
          when (Js.startsWith stem jsonFileNameWithoutExtension)
            (let candidatePath := resolve path directoryPath file in
             returnIfExists candidatePath))))
    (fun _ => Ret Normal).

(** Lines 136-167: the body of the loop over [imageExtensions], case 1. *)
Definition sameCounterImage (directoryPath stem imgExt : string)
  : stmt fsE (option string) :=
  let companionImageNameSameCounter := stem ++ imgExt in
  let companionImagePathSameCounter :=
    resolve path directoryPath companionImageNameSameCounter in
  b <- existsSync companionImagePathSameCounter ;;
  when b
    (match Regex.exec reCounter stem with
     | Some counterMatch =>
         let baseNameWithoutCounter := Js.sliceTo stem (index counterMatch) in
         let jsonWithCounter :=
           baseNameWithoutCounter ++ imgExt ++ ".supplemental-metadata"
             ++ matched stem counterMatch ++ ".json" in
         let jsonWithCounterPath := resolve path directoryPath jsonWithCounter in
         returnIfExists jsonWithCounterPath
     | None => Ret Normal
     end ;;;
     let companionJsonCandidates :=
       [ stem ++ imgExt ++ ".json";
         stem ++ imgExt ++ ".supplemental-metadata.json" ] in
     forOf companionJsonCandidates (fun candidate =>
       let candidatePath := resolve path directoryPath candidate in
       returnIfExists candidatePath)).

(** Lines 169-197: the body of the loop over [imageExtensions], case 2. *)
Definition baseImage (directoryPath stem imgExt : string)
  : stmt fsE (option string) :=
  match Regex.exec reBaseName stem with
  | Some baseNameMatch =>
      let baseNameWithoutCounter := group stem baseNameMatch 1 in
      let companionImageNameBase := baseNameWithoutCounter ++ imgExt in
      let companionImagePathBase := resolve path directoryPath companionImageNameBase in
      b <- existsSync companionImagePathBase ;;
      when b
        (let jsonBase := baseNameWithoutCounter ++ imgExt ++ ".supplemental-metadata.json" in
         let jsonBasePath := resolve path directoryPath jsonBase in
         returnIfExists jsonBasePath ;;;
         let baseJsonCandidates := [ baseNameWithoutCounter ++ imgExt ++ ".json" ] in
         forOf baseJsonCandidates (fun candidate =>
           let candidatePath := resolve path directoryPath candidate in
           returnIfExists candidatePath))
  | None => Ret Normal
  end.

(** Lines 132-199. *)
Definition videoFallback (directoryPath stem mediaFileExtension : string)
  : stmt fsE (option string) :=
  when (Js.includes videoExtensions (Js.toLowerCase mediaFileExtension))
    (forOf imageExtensions (fun imgExt =>
       sameCounterImage directoryPath stem imgExt ;;;
       baseImage directoryPath stem imgExt)).

(** Lines 6-13: directory, extension and stem of a media file path. *)
Definition directoryOf (mediaFilePath : string) : string := dirname path mediaFilePath.
Definition extensionOf (mediaFilePath : string) : string := extname path mediaFilePath.
Definition stemOf (mediaFilePath : string) : string :=
  stripEdited (basename path mediaFilePath (extname path mediaFilePath)).

(** The body of [getCompanionJsonPathForMediaFile]. *)
Definition getCompanionJsonPathForMediaFile (mediaFilePath : string)
  : stmt fsE (option string) :=
  let directoryPath := dirname path mediaFilePath in
  let mediaFileExtension := extname path mediaFilePath in
  let mediaFileNameWithoutExtension := basename path mediaFilePath mediaFileExtension in
  let mediaFileNameWithoutExtension := stripEdited mediaFileNameWithoutExtension in
  directNames directoryPath
    (potentialJsonFileNames mediaFileNameWithoutExtension mediaFileExtension) ;;;
  supplementalScan directoryPath mediaFileNameWithoutExtension ;;;
  jsonScan directoryPath mediaFileNameWithoutExtension ;;;
  truncationScan directoryPath mediaFileNameWithoutExtension ;;;
  videoFallback directoryPath mediaFileNameWithoutExtension mediaFileExtension ;;;
  Ret (Return None).

(** A statement that, however the file system answers, either completes
    normally or returns a path right after [existsSync] answered [true]
    for that very path. *)
Definition checksBeforeReturn (s : stmt fsE (option string)) : Prop :=
  forall t c, executes s t c ->
    c = Normal \/ exists p t', c = Return (Some p) /\ t = t' +++ [Existence p true].

End Resolver.

(* ===================================================================== *)
(** * POSIX paths

    [path.posix] of Node.js: [dirname], [extname] and [basename] follow
    the loops of [lib/path.js] index by index ([-1] is [None]); [resolve]
    follows its segment semantics. *)
(* ===================================================================== *)

Module Posix.

Definition isSlash (c : ascii) : bool := Ascii.eqb c "/".
Definition isDot (c : ascii) : bool := Ascii.eqb c ".".

(** The loop of [dirname], from index [i] down to 1: the value of [end]. *)
Fixpoint dirnameLoop (path : string) (i : nat) (matchedSlash : bool) : option nat :=
  match i with
  | O => None
  | S j =>
      match String.get i path with
      | Some code =>
          if isSlash code
          then if negb matchedSlash then Some i else dirnameLoop path j matchedSlash
          else dirnameLoop path j false
      | None => None
      end
  end.

Definition dirname (path : string) : string :=
  if Nat.eqb (String.length path) 0 then "."
  else
    let hasRoot := Js.startsWith path "/" in
    match dirnameLoop path (String.length path - 1) true with
    | None => if hasRoot then "/" else "."
    | Some e => if hasRoot && Nat.eqb e 1 then "//" else Js.sliceTo path e
    end.

Record extState : Type := ExtState {
  startDot : option nat;
  startPart : nat;
  endIdx : option nat;
  sawSlash : bool;          (** [matchedSlash] *)
  preDotState : option bool (** [0] is [None], [1] is [Some true], [-1] is [Some false] *)
}.

(** The loop of [extname]: the iterations [i = n - 1, ..., 0]. *)
Fixpoint extnameLoop (path : string) (n : nat) (st : extState) : extState :=
  match n with
  | O => st
  | S i =>
      match String.get i path with
      | Some code =>
          if isSlash code
          then
            if negb (sawSlash st)
            then ExtState (startDot st) (i + 1) (endIdx st) (sawSlash st) (preDotState st)
            else extnameLoop path i st
          else
            let st1 :=
              match endIdx st with
              | None => ExtState (startDot st) (startPart st) (Some (i + 1)) false (preDotState st)
              | Some _ => st
              end in
            let st2 :=
              if isDot code
              then match startDot st1 with
                   | None => ExtState (Some i) (startPart st1) (endIdx st1) (sawSlash st1)
                                      (preDotState st1)
                   | Some _ => ExtState (startDot st1) (startPart st1) (endIdx st1)
                                        (sawSlash st1) (Some true)
                   end
              else match startDot st1 with
                   | Some _ => ExtState (startDot st1) (startPart st1) (endIdx st1)
                                        (sawSlash st1) (Some false)
                   | None => st1
                   end in
            extnameLoop path i st2
      | None => st
      end
  end.

Definition extname (path : string) : string :=
  let st := extnameLoop path (String.length path) (ExtState None 0 None true None) in
  match startDot st, endIdx st, preDotState st with
  | Some sd, Some e, Some pre =>
      if pre && Nat.eqb sd (e - 1) && Nat.eqb sd (startPart st + 1)
      then ""
      else Js.slice path sd e
  | _, _, _ => ""
  end.

Record baseState : Type := BaseState {
  bStart : nat;
  bEnd : option nat;
  bSawSlash : bool;
  extIdx : option nat;          (** [None] is [-1] *)
  firstNonSlashEnd : option nat
}.

(** The loop of [basename] with a suffix: the iterations [i = n - 1, ..., 0]. *)
Fixpoint basenameSuffixLoop (path suffix : string) (n : nat) (st : baseState) : baseState :=
  match n with
  | O => st
  | S i =>
      match String.get i path with
      | Some code =>
          if isSlash code
          then
            if negb (bSawSlash st)
            then BaseState (i + 1) (bEnd st) (bSawSlash st) (extIdx st) (firstNonSlashEnd st)
            else basenameSuffixLoop path suffix i st
          else
            let st1 :=
              match firstNonSlashEnd st with
              | None => BaseState (bStart st) (bEnd st) false (extIdx st) (Some (i + 1))
              | Some _ => st
              end in
            let st2 :=
              match extIdx st1 with
              | Some x =>
                  if match String.get x suffix with
                     | Some d => Ascii.eqb code d
                     | None => false
                     end
                  then match x with
                       | O => BaseState (bStart st1) (Some i) (bSawSlash st1) None
                                        (firstNonSlashEnd st1)
                       | S x' => BaseState (bStart st1) (bEnd st1) (bSawSlash st1) (Some x')
                                           (firstNonSlashEnd st1)
                       end
                  else BaseState (bStart st1) (firstNonSlashEnd st1) (bSawSlash st1) None
                                 (firstNonSlashEnd st1)
              | None => st1
              end in
            basenameSuffixLoop path suffix i st2
      | None => st
      end
  end.

(** The loop of [basename] without a suffix: [(start, end)]. *)
Fixpoint basenameLoop (path : string) (n : nat) (e : option nat) (matchedSlash : bool)
  : nat * option nat :=
  match n with
  | O => (0, e)
  | S i =>
      match String.get i path with
      | Some code =>
          if isSlash code
          then if negb matchedSlash then (i + 1, e) else basenameLoop path i e matchedSlash
          else match e with
               | None => basenameLoop path i (Some (i + 1)) false
               | Some _ => basenameLoop path i e matchedSlash
               end
      | None => (0, e)
      end
  end.

Definition basename (path suffix : string) : string :=
  if Nat.ltb 0 (String.length suffix) && Nat.leb (String.length suffix) (String.length path)
  then
    if String.eqb suffix path then ""
    else
      let st := basenameSuffixLoop path suffix (String.length path)
                  (BaseState 0 None true (Some (String.length suffix - 1)) None) in
      match bEnd st, firstNonSlashEnd st with
      | Some e, Some f =>
          if Nat.eqb (bStart st) e then Js.slice path (bStart st) f
          else Js.slice path (bStart st) e
      | Some e, None =>
          if Nat.eqb (bStart st) e then Js.slice path (bStart st) 0
          else Js.slice path (bStart st) e
      | None, _ => Js.slice path (bStart st) (String.length path)
      end
  else
    match basenameLoop path (String.length path) None true with
    | (_, None) => ""
    | (start, Some e) => Js.slice path start e
    end.

(** Split at every slash. *)
Fixpoint splitSlash (s : string) (cur : string) : list string :=
  match s with
  | EmptyString => [cur]
  | String c s' =>
      if isSlash c then cur :: splitSlash s' "" else splitSlash s' (cur ++ String c "")
  end.

(** [normalizeString]: empty and [.] segments vanish, [..] removes the
    segment before it; above the root it vanishes too, unless the path is
    relative ([allowAboveRoot]).  [acc] is the result so far, reversed. *)
Fixpoint normalizeSegments (allowAboveRoot : bool) (segs acc : list string) : list string :=
  match segs with
  | [] => rev acc
  | s :: segs' =>
      if String.eqb s "" || String.eqb s "." then normalizeSegments allowAboveRoot segs' acc
      else if String.eqb s ".."
      then match acc with
           | top :: acc' =>
               if String.eqb top ".."
               then normalizeSegments allowAboveRoot segs' (s :: acc)
               else normalizeSegments allowAboveRoot segs' acc'
           | [] =>
               if allowAboveRoot
               then normalizeSegments allowAboveRoot segs' [s]
               else normalizeSegments allowAboveRoot segs' []
           end
      else normalizeSegments allowAboveRoot segs' (s :: acc)
  end.

(** [resolve(a, b)] in the working directory [cwd]: the arguments are
    taken from the right until the path is absolute. *)
Definition resolve (cwd a b : string) : string :=
  let step (p : string) (acc : string * bool) : string * bool :=
    let (resolvedPath, resolvedAbsolute) := acc in
    if resolvedAbsolute || Nat.eqb (String.length p) 0 then acc
    else (p ++ "/" ++ resolvedPath, Js.startsWith p "/") in
  let (resolvedPath, resolvedAbsolute) := step cwd (step a (step b ("", false))) in
  let normalized :=
    String.concat "/"
      (normalizeSegments (negb resolvedAbsolute) (splitSlash resolvedPath "") []) in
  if resolvedAbsolute then "/" ++ normalized
  else if Nat.ltb 0 (String.length normalized) then normalized else ".".

(** The module in the working directory [cwd]. *)
Definition pathModule (cwd : string) : PathModule :=
  Build_PathModule dirname extname basename (resolve cwd).

End Posix.

(* ===================================================================== *)
(** * A file system that does not change *)
(* ===================================================================== *)

(** Run a program against fixed answers. *)
Fixpoint run {E : Type -> Type} {A : Type} (h : forall X, E X -> X) (p : io E A) : A :=
  match p with
  | Ret a => a
  | Vis e k => run h (k (h _ e))
  end.

(** The calls made on the way. *)
Fixpoint trace {E : Type -> Type} {observed : Observed E} {A : Type}
    (h : forall X, E X -> X) (p : io E A) : list Obs :=
  match p with
  | Ret _ => []
  | Vis e k => observe e (h _ e) :: trace h (k (h _ e))
  end.

Record FileSystem : Type := {
  fsExists : string -> bool;
  fsReaddir : string -> result (list string)
}.

Definition fsAnswer (fs : FileSystem) (X : Type) (e : fsE X) : X :=
  match e with
  | ExistsSync p => fsExists fs p
  | ReaddirSync d => fsReaddir fs d
  end.

(** The file system with one directory [dir] (an absolute, normalised path)
    holding the entries [entries]; any other directory cannot be listed. *)
Definition directory (dir : string) (entries : list string) : FileSystem :=
  {| fsExists := fun p => existsb (fun f => String.eqb p (dir ++ "/" ++ f)) entries;
     fsReaddir := fun d => if String.eqb d dir then Ok entries
                           else Err (Error "ENOENT") |}.

(** The same entries in a directory that cannot be listed. *)
Definition unreadableDirectory (dir : string) (entries : list string) : FileSystem :=
  {| fsExists := fun p => existsb (fun f => String.eqb p (dir ++ "/" ++ f)) entries;
     fsReaddir := fun _ => Err (Error "EACCES") |}.

(** Resolution on POSIX paths, working directory [/], in a fixed file system. *)
Definition resolveIn (fs : FileSystem) (mediaFilePath : string)
  : completion (option string) :=
  run (fsAnswer fs) (getCompanionJsonPathForMediaFile (Posix.pathModule "/") mediaFilePath).

(* ===================================================================== *)
(** * The order of the candidates

    The state-machine view of the resolver: six priorities, each an
    ordered list of candidate paths, in a file system that does not
    change.  A scan whose directory cannot be listed has no candidates. *)
(* ===================================================================== *)

Section CandidateOrder.

Variable path : PathModule.
Variable fs : FileSystem.

Definition listing (directoryPath : string) : list string :=
  match fsReaddir fs directoryPath with
  | Ok files => files
  | Err _ => []
  end.

Definition inDirectory (directoryPath : string) (names : list string) : list string :=
  map (resolve path directoryPath) names.

(** Priority 1: the direct names, then the names with the counter moved
    behind the extension. *)
Definition priority1 (directoryPath stem ext : string) : list string :=
  inDirectory directoryPath
    (directNameCandidates stem ext +++ counterCandidates stem ext).

(** Priority 2: the names without the extra trailing character. *)
Definition priority2 (directoryPath stem ext : string) : list string :=
  inDirectory directoryPath (trailingCharCandidates stem ext).

(** Priority 3: entries with the stem as prefix that end in
    [.supplemental-metadata.json]. *)
Definition priority3 (directoryPath stem : string) : list string :=
  inDirectory directoryPath
    (filter (fun file => Js.startsWith file stem
                         && Js.endsWith file ".supplemental-metadata.json")
            (listing directoryPath)).

(** Priority 4: entries with the stem as prefix that end in [.json] and
    carry a counter exactly when the stem does. *)
Definition priority4 (directoryPath stem : string) : list string :=
  inDirectory directoryPath (filter (jsonScanAccepts stem) (listing directoryPath)).

(** Priority 5: [.json] entries whose name without [.json] is a prefix of
    the stem. *)
Definition priority5 (directoryPath stem : string) : list string :=
  inDirectory directoryPath
    (filter (fun file => Js.endsWith file ".json"
                         && Js.startsWith stem (Js.sliceDropLast file 5))
            (listing directoryPath)).

(** Priority 6a, for one image extension: the sidecars of the image with
    the name of the video, if that image exists. *)
Definition priority6a (directoryPath stem imgExt : string) : list string :=
  if fsExists fs (resolve path directoryPath (stem ++ imgExt))
  then
    inDirectory directoryPath
      (match Regex.exec reCounter stem with
       | Some m => [ Js.sliceTo stem (index m) ++ imgExt ++ ".supplemental-metadata"
                       ++ matched stem m ++ ".json" ]
       | None => []
       end
       +++ [ stem ++ imgExt ++ ".json";
             stem ++ imgExt ++ ".supplemental-metadata.json" ])
  else [].

(** Priority 6b, for one image extension: the sidecars of the image
    without the counter of the video, if that image exists. *)
Definition priority6b (directoryPath stem imgExt : string) : list string :=
  match Regex.exec reBaseName stem with
  | Some m =>
      let base := group stem m 1 in
      if fsExists fs (resolve path directoryPath (base ++ imgExt))
      then inDirectory directoryPath
             [ base ++ imgExt ++ ".supplemental-metadata.json";
               base ++ imgExt ++ ".json" ]
      else []
  | None => []
  end.

(** Priority 6: for a video, 6a then 6b for every image extension in turn. *)
Definition priority6 (directoryPath stem ext : string) : list string :=
  if Js.includes videoExtensions (Js.toLowerCase ext)
  then flat_map (fun imgExt => priority6a directoryPath stem imgExt
                               +++ priority6b directoryPath stem imgExt)
                imageExtensions
  else [].


(** The first candidate of a list that exists, as the completion of the
    statements that look for it. *)
Definition firstExisting (candidates : list string) : completion (option string) :=
  match find (fsExists fs) candidates with
  | Some p => Return (Some p)
  | None => Normal
  end.

End CandidateOrder.

(* ===================================================================== *)
(** * update-exif-metadata.ts and does-exif-date-match-photo-taken-time.ts *)
(* ===================================================================== *)

(** [models/media-file-info.ts] is not among the sources: the record has
    the fields that the two functions read.  [jsonFilePath] and
    [jsonFileName] are tested for truthiness before use, so they may be
    [null]. *)
Record MediaFileInfo : Type := {
  mediaFileName : string;
  outputFilePath : string;
  jsonFilePath : option string;
  jsonFileName : option string;
  jsonFileExists : bool
}.

(** The tags given to [exiftool.write]: names and values, in order. *)
Definition Tags : Type := list (string * string).

Section Exif.

(** The value of the [DateTimeOriginal] tag as [exiftool.read] returns it. *)
Variable ExifDate : Type.

(** The calls of [exiftool-vendored], of [fs.promises] and of the helper
    [readPhotoTakenTimeFromGoogleJson]: each returns a promise, which may be
    rejected. *)
Inductive exifE : Type -> Type :=
| ExiftoolWrite (file : string) (tags : Tags) : exifE (result unit)
| ExiftoolRead (file : string) : exifE (result (option ExifDate))
| Unlink (file : string) : exifE (result unit)
| CopyFile (src dest : string) : exifE (result unit)
| ReadPhotoTakenTimeFromGoogleJson (mediaFile : MediaFileInfo)
    : exifE (result (option string)).

(** A call with its answer. *)
Inductive exifEvent : Type :=
| Written (file : string) (tags : Tags) (answer : result unit)
| Read (file : string) (answer : result (option ExifDate))
| Unlinked (file : string) (answer : result unit)
| Copied (src dest : string) (answer : result unit)
| JsonRead (mediaFile : MediaFileInfo) (answer : result (option string)).

#[global] Instance exifObserved : Observed exifE := {|
  Obs := exifEvent;
  observe := fun X e =>
    match e in exifE X return X -> exifEvent with
    | ExiftoolWrite f tags => Written f tags
    | ExiftoolRead f => Read f
    | Unlink f => Unlinked f
    | CopyFile src dest => Copied src dest
    | ReadPhotoTakenTimeFromGoogleJson mf => JsonRead mf
    end
|}.

Variable path : PathModule.

(** [helpers/does-file-support-exif.ts] is not among the sources. *)
Variable doesFileSupportExif : string -> bool.

(** [new Date(s).toISOString()]: throws a [RangeError] for an invalid date. *)
Variable toISOString : string -> result string.

(** [new Date(exifDate).toISOString()] for the value of a tag. *)
Variable exifDateToISOString : ExifDate -> result string.

(** Lines 29-38 of [update-exif-metadata.ts]. *)
Definition metadataTagsFor (extension utcFormattedDate : string) : Tags :=
  if Js.includes [".mp4"; ".mov"; ".avi"] extension
  then [ ("DateTimeOriginal", utcFormattedDate);
         ("CreateDate", utcFormattedDate);
         ("MediaCreateDate", utcFormattedDate) ]
  else [ ("DateTimeOriginal", utcFormattedDate) ].

(** Line 23. *)
Definition utcFormatted (isoString : string) : string :=
  Js.replace "Z" "+00:00" (Js.replace "T" " " isoString).

(** Line 46: [fileInfo.jsonFileExists && fileInfo.jsonFileName && fileInfo.jsonFilePath]. *)
Definition hasCompanionJson (fileInfo : MediaFileInfo) : bool :=
  jsonFileExists fileInfo && Js.truthy (jsonFileName fileInfo)
  && Js.truthy (jsonFilePath fileInfo).

(** Lines 45-48: the [catch] block. *)
Definition copyToErrorDir (fileInfo : MediaFileInfo) (errorDir : string) : stmt exifE unit :=
  await perform (CopyFile (outputFilePath fileInfo)
                          (resolve path errorDir (mediaFileName fileInfo))) ;;
  when (hasCompanionJson fileInfo)
    (match jsonFilePath fileInfo, jsonFileName fileInfo with
     | Some jsonFilePath, Some jsonFileName =>
         await perform (CopyFile jsonFilePath (resolve path errorDir jsonFileName)) ;;
         Ret Normal
     | _, _ => Ret Normal
     end).

(** Lines 16-42: the [try] block. *)
Definition writeTimestamp (fileInfo : MediaFileInfo) (timeTaken : string) : stmt exifE unit :=
  let extension := Js.toLowerCase (extname path (outputFilePath fileInfo)) in
  const isoString := Ret (toISOString timeTaken) ;;
  let utcFormattedDate := utcFormatted isoString in
  let metadataTags := metadataTagsFor extension utcFormattedDate in
  await perform (ExiftoolWrite (outputFilePath fileInfo) metadataTags) ;;
  await perform (Unlink (outputFilePath fileInfo ++ "_original")) ;;
  Ret Normal.

(** The body of [updateExifMetadata]. *)
Definition updateExifMetadataBody (fileInfo : MediaFileInfo) (timeTaken errorDir : string)
  : stmt exifE unit :=
  when (negb (doesFileSupportExif (outputFilePath fileInfo))) (Ret (Return tt)) ;;;
  tryCatch (writeTimestamp fileInfo timeTaken)
           (fun _ => copyToErrorDir fileInfo errorDir).

(** How the promise of an [async] function is settled: fulfilled with the
    returned value ([undefined] when the body ends without [return]), or
    rejected with the thrown error. *)
Definition settle {R : Type} (undefined : R) (c : completion R) : result R :=
  match c with
  | Normal => Ok undefined
  | Return v => Ok v
  | Throw e => Err e
  end.

Definition updateExifMetadata (fileInfo : MediaFileInfo) (timeTaken errorDir : string)
  : io exifE (result unit) :=
  c <- updateExifMetadataBody fileInfo timeTaken errorDir ;; Ret (settle tt c).

(** The body of [doesExifDateMatchPhotoTakenTime]. *)
Definition doesExifDateMatchPhotoTakenTimeBody (mediaFile : MediaFileInfo)
  : stmt exifE bool :=
  when (negb (doesFileSupportExif (outputFilePath mediaFile))) (Ret (Return true)) ;;;
  const photoTakenTime := perform (ReadPhotoTakenTimeFromGoogleJson mediaFile) ;;
  match photoTakenTime with
  | None => Ret (Return true)
  | Some photoTakenTime =>
      tryCatch
        (const exifDate := perform (ExiftoolRead (outputFilePath mediaFile)) ;;
         match exifDate with
         | None => Ret (Return false)
         | Some exifDate =>
             const exifDateIso := Ret (exifDateToISOString exifDate) ;;
             Ret (Return (String.eqb exifDateIso photoTakenTime))
         end)
        (fun _ => Ret (Return true))
  end.

Definition doesExifDateMatchPhotoTakenTime (mediaFile : MediaFileInfo)
  : io exifE (result bool) :=
  c <- doesExifDateMatchPhotoTakenTimeBody mediaFile ;; Ret (settle false c).

End Exif.

Arguments ExiftoolWrite {ExifDate} file tags.
Arguments ExiftoolRead {ExifDate} file.
Arguments Unlink {ExifDate} file.
Arguments CopyFile {ExifDate} src dest.
Arguments ReadPhotoTakenTimeFromGoogleJson {ExifDate} mediaFile.
Arguments Written {ExifDate} file tags answer.
Arguments Read {ExifDate} file answer.
Arguments Unlinked {ExifDate} file answer.
Arguments Copied {ExifDate} src dest answer.
Arguments JsonRead {ExifDate} mediaFile answer.

(** Fixed answers to the calls of the writer and of the verifier. *)
Record ExifWorld (ExifDate : Type) : Type := {
  onWrite : string -> Tags -> result unit;
  onRead : string -> result (option ExifDate);
  onUnlink : string -> result unit;
  onCopy : string -> string -> result unit;
  onJsonRead : MediaFileInfo -> result (option string)
}.

Definition exifAnswer {ExifDate : Type} (w : ExifWorld ExifDate) (X : Type)
    (e : exifE ExifDate X) : X :=
  match e with
  | ExiftoolWrite f tags => onWrite w f tags
  | ExiftoolRead f => onRead w f
  | Unlink f => onUnlink w f
  | CopyFile src dest => onCopy w src dest
  | ReadPhotoTakenTimeFromGoogleJson mf => onJsonRead w mf
  end.

(** A world in which the calls answer [write], [unlink], [copy] and [read]. *)
Definition sampleWorld (write unlink copy : result unit) (read : result (option string))
  : ExifWorld string :=
  {| onWrite := fun _ _ => write;
     onRead := fun _ => read;
     onUnlink := fun _ => unlink;
     onCopy := fun _ _ => copy;
     onJsonRead := fun _ => Ok (Some "2020-01-01T00:00:00.000Z") |}.

(** A file with a companion JSON, for the examples. *)
Definition sampleFileInfo : MediaFileInfo :=
  {| mediaFileName := "a.jpg";
     outputFilePath := "/out/a.jpg";
     jsonFilePath := Some "/in/a.jpg.json";
     jsonFileName := Some "a.jpg.json";
     jsonFileExists := true |}.

(** The writer and the verifier on POSIX paths, for files that all support
    embedded metadata, with dates already in ISO form. *)
Definition sampleUpdate : MediaFileInfo -> string -> string -> io (exifE string) (result unit) :=
  updateExifMetadata string (Posix.pathModule "/") (fun _ => true) (fun s => Ok s).

Definition sampleVerify : MediaFileInfo -> io (exifE string) (result bool) :=
  doesExifDateMatchPhotoTakenTime (fun _ => true) (fun s => Ok s).

(* ===================================================================== *)
(** * Vocabulary for further properties of the three functions *)
(* ===================================================================== *)


(** The directories listed in a trace, in order. *)
Fixpoint listings (t : list fsEvent) : list string :=
  match t with
  | [] => []
  | Listing d _ :: t' => d :: listings t'
  | Existence _ _ :: t' => listings t'
  end.

(** A statement that lists no directory but [dir], and at most [n] times. *)
Definition listsWithin (dir : string) (n : nat) (s : stmt fsE (option string)) : Prop :=
  forall t c, executes s t c ->
    (forall d, In d (listings t) -> d = dir) /\ List.length (listings t) <= n.

(** Lines 70 and 114-117: the conditions under which the first and the
    third scan take an entry of the directory. *)
Definition supplementalScanAccepts (stem file : string) : bool :=
  Js.startsWith file stem && Js.endsWith file ".supplemental-metadata.json".

Definition truncationScanAccepts (stem file : string) : bool :=
  Js.endsWith file ".json" && Js.startsWith stem (Js.sliceDropLast file 5).

(** No code unit of [s] is [c]. *)
Fixpoint lacks (c : ascii) (s : string) : bool :=
  match s with
  | EmptyString => true
  | String d s' => negb (Ascii.eqb c d) && lacks c s'
  end.



(* ===================================================================== *)
(** * Strings *)
(* ===================================================================== *)

Unset Implicit Arguments.

Section StringFacts.

Lemma append_empty_r (s : string) : s ++ "" = s.
Proof. induction s as [| c s IH]; simpl; congruence. Qed.

Lemma append_assoc (a b c : string) : (a ++ b) ++ c = a ++ b ++ c.
Proof. induction a as [| x a IH]; simpl; congruence. Qed.

Lemma length_append (a b : string) :
  String.length (a ++ b) = String.length a + String.length b.
Proof. induction a as [| x a IH]; simpl; congruence. Qed.

Lemma substring_zero_length (n : nat) (s : string) : substring n 0 s = "".
Proof.
  revert n. induction s as [| c s IH]; intros [| n]; simpl; auto.
Qed.

Lemma substring_prefix (a b : string) : substring 0 (String.length a) (a ++ b) = a.
Proof.
  induction a as [| x a IH]; simpl.
  - apply substring_zero_length.
  - rewrite IH. reflexivity.
Qed.

Lemma substring_skip (a b : string) (m : nat) :
  substring (String.length a) m (a ++ b) = substring 0 m b.
Proof. induction a as [| x a IH]; simpl; auto. Qed.

Lemma substring_all (s : string) : substring 0 (String.length s) s = s.
Proof. induction s as [| c s IH]; simpl; congruence. Qed.

Lemma substring_suffix (a b : string) :
  substring (String.length a) (String.length b) (a ++ b) = b.
Proof. rewrite substring_skip. apply substring_all. Qed.

Lemma substring_split (s : string) (n : nat) :
  n <= String.length s ->
  s = substring 0 n s ++ substring n (String.length s - n) s.
Proof.
  revert n. induction s as [| c s IH]; intros n Hn; simpl in *.
  - destruct n; reflexivity.
  - destruct n as [| n]; simpl.
    + rewrite substring_all. reflexivity.
    + rewrite <- IH by lia. reflexivity.
Qed.

Lemma eqb_length (a b : string) : String.eqb a b = true -> String.length a = String.length b.
Proof. intros H. apply String.eqb_eq in H. congruence. Qed.

Lemma toLowerCase_length (s : string) : String.length (Js.toLowerCase s) = String.length s.
Proof. induction s as [| c s IH]; simpl; congruence. Qed.

(** [startsWith] and [endsWith], without indices. *)
Lemma startsWith_iff (s p : string) :
  Js.startsWith s p = true <-> exists rest, s = p ++ rest.
Proof.
  unfold Js.startsWith. revert s. induction p as [| c p IH]; intros s; simpl.
  - split; [intros _; exists s; reflexivity | intros _; destruct s; reflexivity].
  - destruct s as [| d s]; simpl.
    + split; [discriminate | intros (rest & H); discriminate].
    + destruct (ascii_dec c d) as [-> | Hcd].
      * rewrite IH. split; intros (rest & H); exists rest; congruence.
      * split; [discriminate | intros (rest & H); congruence].
Qed.

Lemma endsWith_iff (s p : string) :
  Js.endsWith s p = true <-> exists pre, s = pre ++ p.
Proof.
  unfold Js.endsWith. rewrite andb_true_iff, Nat.leb_le, String.eqb_eq. split.
  - intros [Hlen Hsub].
    exists (substring 0 (String.length s - String.length p) s).
    rewrite (substring_split s (String.length s - String.length p)) at 1 by lia.
    f_equal.
    replace (String.length s - (String.length s - String.length p))
      with (String.length p) by lia.
    exact Hsub.
  - intros (pre & ->). rewrite length_append. split; [lia|].
    replace (String.length pre + String.length p - String.length p)
      with (String.length pre) by lia.
    apply substring_suffix.
Qed.

End StringFacts.

(* ===================================================================== *)
(** * Regular expressions: what the patterns of the resolver recognise *)
(* ===================================================================== *)

Section RegexFacts.

(** [search] returns the leftmost match. *)
Lemma search_spec (re : regex) (rest : string) (pos : nat) :
  match search re rest pos with
  | Some r =>
      exists pre x,
        rest = pre ++ x
        /\ index r = pos + String.length pre
        /\ matchAt re x (pos + String.length pre) [] = Some (matchEnd r, marks r)
        /\ forall pre' x', rest = pre' ++ x' ->
             String.length pre' < String.length pre ->
             matchAt re x' (pos + String.length pre') [] = None
  | None =>
      forall pre x, rest = pre ++ x -> matchAt re x (pos + String.length pre) [] = None
  end.
Proof.
  revert pos. induction rest as [| c rest IH]; intros pos; simpl.
  - destruct (matchAt re "" pos []) as [[e ms] |] eqn:Hm.
    + exists "", "". simpl. rewrite Nat.add_0_r. repeat split; auto.
      intros pre' x' _ Hlt. lia.
    + intros pre x H. destruct pre; [| discriminate]. simpl in H. subst x.
      simpl. rewrite Nat.add_0_r. exact Hm.
  - destruct (matchAt re (String c rest) pos []) as [[e ms] |] eqn:Hm.
    + exists "", (String c rest). simpl. rewrite Nat.add_0_r. repeat split; auto.
      intros pre' x' _ Hlt. lia.
    + specialize (IH (S pos)). destruct (search re rest (S pos)) as [r |].
      * destruct IH as (pre & x & -> & Hi & Hx & Hleft).
        exists (String c pre), x. simpl.
        rewrite Nat.add_succ_r. repeat split; auto.
        intros pre' x' Hsplit Hlt. destruct pre' as [| d pre']; simpl in *.
        -- subst x'. rewrite Nat.add_0_r. exact Hm.
        -- injection Hsplit as -> Hsplit. rewrite Nat.add_succ_r.
           apply Hleft; [exact Hsplit | lia].
      * intros pre x Hsplit. destruct pre as [| d pre]; simpl in *.
        -- subst x. rewrite Nat.add_0_r. exact Hm.
        -- injection Hsplit as -> Hsplit. rewrite Nat.add_succ_r. apply IH. exact Hsplit.
Qed.

Lemma test_iff (re : regex) (s : string) :
  test re s = true <->
  exists pre x, s = pre ++ x /\ matchAt re x (String.length pre) [] <> None.
Proof.
  unfold test, exec. pose proof (search_spec re s 0) as H.
  destruct (search re s 0) as [r |].
  - destruct H as (pre & x & -> & _ & Hx & _). split; [intros _ | reflexivity].
    exists pre, x. simpl in Hx. rewrite Hx. split; [reflexivity | discriminate].
  - split; [discriminate|]. intros (pre & x & -> & Hx). exfalso. apply Hx.
    apply (H pre x). reflexivity.
Qed.

(** One step of the matcher. *)
Lemma matchAt_Mark (re : regex) (x : string) (pos : nat) (ms : list nat) :
  matchAt (Mark :: re) x pos ms = matchAt re x pos (ms +++ [pos]).
Proof. reflexivity. Qed.

Lemma matchAt_Star (p : ascii -> bool) (re : regex) (x : string) (pos : nat) (ms : list nat) :
  matchAt (Star p :: re) x pos ms
  = starGreedy p (fun rest pos => matchAt re rest pos ms) x pos.
Proof. reflexivity. Qed.

Lemma lit_true (c d : ascii) : Ascii.eqb c d = true <-> d = c.
Proof. rewrite Ascii.eqb_eq. split; congruence. Qed.

(** The digits of a counter and its closing parenthesis: the greedy loop
    takes all the digits, since the rest of the pattern begins with the
    parenthesis. *)
Lemma starGreedy_digits (tl : regex) (ms : list nat) (r : string) (pos : nat) m :
  starGreedy digit (fun rest pos => matchAt (lit ")" :: tl) rest pos ms) r pos = Some m
  <-> exists ds y, r = ds ++ ")" ++ y /\ allDigits ds = true
                   /\ matchAt tl y (S (pos + String.length ds)) ms = Some m.
Proof.
  revert pos. induction r as [| c r IH]; intros pos.
  - simpl. split; [discriminate|].
    intros (ds & y & H & _). destruct ds; discriminate.
  - cbn [starGreedy]. destruct (digit c) eqn:Hc.
    + assert (Hk : matchAt (lit ")" :: tl) (String c r) pos ms = None).
      { cbn [matchAt lit]. destruct (Ascii.eqb ")" c) eqn:He; [| reflexivity].
        apply lit_true in He. subst c. discriminate. }
      rewrite Hk. split.
      * intros H.
        destruct (starGreedy digit _ r (S pos)) as [m' |] eqn:Hs; [| discriminate].
        injection H as ->. apply IH in Hs. destruct Hs as (ds & y & -> & Hds & Hy).
        exists (String c ds), y. simpl. rewrite Hc, Hds.
        rewrite Nat.add_succ_r. auto.
      * intros (ds & y & Hr & Hds & Hy). destruct ds as [| d ds]; simpl in Hr.
        -- injection Hr as -> _. discriminate.
        -- injection Hr as Hcd Hr. subst d.
           simpl in Hds. rewrite Hc in Hds. simpl in Hds, Hy.
           rewrite Nat.add_succ_r in Hy.
           assert (Hs : starGreedy digit
                          (fun rest pos => matchAt (lit ")" :: tl) rest pos ms)
                          r (S pos) = Some m).
           { apply IH. exists ds, y. auto. }
           rewrite Hs. reflexivity.
    + cbn [matchAt lit]. split.
      * intros H. destruct (Ascii.eqb ")" c) eqn:He; [| discriminate].
        apply lit_true in He. subst c. exists "", r. simpl. rewrite Nat.add_0_r. auto.
      * intros (ds & y & Hr & Hds & Hy). destruct ds as [| d ds]; simpl in Hr.
        -- injection Hr as -> ->. simpl in Hy. rewrite Nat.add_0_r in Hy. exact Hy.
        -- injection Hr as -> _. simpl in Hds. rewrite Hc in Hds. discriminate.
Qed.

(** A counter, followed by the rest of the pattern. *)
Lemma matchAt_counter (tl : regex) (ms : list nat) (x : string) (pos : nat) m :
  matchAt (lit "(" :: Plus digit :: lit ")" :: tl) x pos ms = Some m
  <-> exists ds y, x = "(" ++ ds ++ ")" ++ y /\ ds <> "" /\ allDigits ds = true
                   /\ matchAt tl y (pos + String.length ds + 2) ms = Some m.
Proof.
  destruct x as [| c x].
  - simpl. split; [discriminate | intros (ds & y & H & _); discriminate].
  - cbn [matchAt lit]. destruct (Ascii.eqb "(" c) eqn:Hc.
    + apply lit_true in Hc. subst c. destruct x as [| d x].
      * split; [discriminate|]. intros (ds & y & H & _). destruct ds; discriminate.
      * destruct (digit d) eqn:Hd.
        -- match goal with
           | |- _ <-> ?R =>
               change (starGreedy digit
                         (fun rest pos => matchAt (lit ")" :: tl) rest pos ms)
                         x (S (S pos)) = Some m <-> R)
           end.
           rewrite starGreedy_digits. split.
           ++ intros (ds & y & -> & Hds & Hy). exists (String d ds), y. simpl.
              rewrite Hd, Hds. repeat split; try discriminate.
              rewrite <- Hy. f_equal. lia.
           ++ intros (ds & y & Hx & Hne & Hds & Hy). simpl in Hx.
              destruct ds as [| d' ds]; [contradiction|].
              injection Hx as -> ->. simpl in Hds. rewrite Hd in Hds. simpl in Hds.
              exists ds, y. repeat split; auto. rewrite <- Hy. f_equal. simpl. lia.
        -- split; [discriminate|]. intros (ds & y & Hx & Hne & Hds & _).
           destruct ds as [| d' ds]; [contradiction|]. simpl in Hx.
           injection Hx as -> _. simpl in Hds. rewrite Hd in Hds. discriminate.
    + split; [discriminate|]. intros (ds & y & Hx & _). simpl in Hx.
      injection Hx as -> _. discriminate.
Qed.

Lemma matchAt_Eos (y : string) (pos : nat) (ms : list nat) m :
  matchAt [Eos] y pos ms = Some m <-> y = "" /\ m = (pos, ms).
Proof.
  destruct y; simpl.
  - split; [intros H; injection H as <-; auto | intros [_ ->]; reflexivity].
  - split; [discriminate | intros [H _]; discriminate].
Qed.

(** [/\(\d+\)$/] recognises the strings that end with a counter. *)
Lemma test_reCounter (s : string) : test reCounter s = true <-> endsWithCounter s.
Proof.
  rewrite test_iff. unfold endsWithCounter, isCounter, reCounter. split.
  - intros (pre & x & -> & Hx).
    destruct (matchAt _ x _ _) as [m |] eqn:Hm; [| contradiction].
    apply matchAt_counter in Hm. destruct Hm as (ds & y & -> & Hne & Hds & Hy).
    apply matchAt_Eos in Hy. destruct Hy as [-> _].
    exists pre, ("(" ++ ds ++ ")"). split; [reflexivity|]. exists ds. auto.
  - intros (pre & c & -> & ds & -> & Hne & Hds). exists pre, ("(" ++ ds ++ ")").
    split; [reflexivity|].
    assert (H : matchAt [lit "("; Plus digit; lit ")"; Eos] ("(" ++ ds ++ ")")
                  (String.length pre) []
                = Some (String.length pre + String.length ds + 2, [])).
    { apply matchAt_counter. exists ds, "". repeat split; auto. }
    rewrite H. discriminate.
Qed.

Lemma matchAt_dotJson (y : string) (pos : nat) (ms : list nat) m :
  matchAt [lit "."; lit "j"; lit "s"; lit "o"; lit "n"; Eos] y pos ms = Some m
  <-> y = ".json" /\ m = (pos + 5, ms).
Proof.
  split.
  - intros H.
    do 5 (destruct y as [| ?c y]; [discriminate|];
          cbn [matchAt lit] in H;
          match type of H with
          | (if Ascii.eqb ?a ?b then _ else _) = _ =>
              destruct (Ascii.eqb a b) eqn:?He; [apply lit_true in He; subst | discriminate]
          end).
    apply matchAt_Eos in H. destruct H as [-> ->]. split; [reflexivity|].
    f_equal. lia.
  - intros [-> ->]. simpl. f_equal. f_equal. lia.
Qed.

(** [/\(\d+\)\.json$/] recognises the strings that end with a counter and
    [.json]. *)
Lemma test_reCounterJson (file : string) :
  test reCounterJson file = true <->
  exists base, file = base ++ ".json" /\ endsWithCounter base.
Proof.
  rewrite test_iff. unfold endsWithCounter, isCounter, reCounterJson. split.
  - intros (pre & x & -> & Hx).
    destruct (matchAt _ x _ _) as [m |] eqn:Hm; [| contradiction].
    apply matchAt_counter in Hm. destruct Hm as (ds & y & -> & Hne & Hds & Hy).
    apply matchAt_dotJson in Hy. destruct Hy as [-> _].
    exists (pre ++ "(" ++ ds ++ ")"). split.
    + rewrite !append_assoc. reflexivity.
    + exists pre, ("(" ++ ds ++ ")"). split; [reflexivity|]. exists ds. auto.
  - intros (base & -> & pre & c & -> & ds & -> & Hne & Hds).
    exists pre, ("(" ++ ds ++ ")" ++ ".json"). split.
    + rewrite !append_assoc. reflexivity.
    + assert (H : matchAt [lit "("; Plus digit; lit ")"; lit "."; lit "j"; lit "s";
                           lit "o"; lit "n"; Eos]
                    ("(" ++ ds ++ ")" ++ ".json") (String.length pre) []
                  = Some (String.length pre + String.length ds + 2 + 5, [])).
      { apply matchAt_counter. exists ds, ".json". repeat split; auto.
        apply matchAt_dotJson. auto. }
      rewrite H. discriminate.
Qed.

End RegexFacts.

(* ===================================================================== *)
(** * Programs: the laws of [bind], [seq], [tryCatch] and [forOf] *)
(* ===================================================================== *)

Section FreeFacts.

Context {E : Type -> Type} {observed : Observed E}.

Lemma executes_bind {A B : Type} (p : io E A) (f : A -> io E B) t b :
  executes (bind p f) t b <->
  exists t1 a t2, t = t1 +++ t2 /\ executes p t1 a /\ executes (f a) t2 b.
Proof.
  revert t. induction p as [a | X e k IH]; intros t; simpl.
  - split.
    + intros H. exists [], a, t. auto.
    + intros (t1 & a' & t2 & -> & (-> & ->) & H). exact H.
  - split.
    + intros (x & t' & -> & H). apply IH in H.
      destruct H as (t1 & a & t2 & -> & H1 & H2).
      exists (observe e x :: t1), a, t2. split; [reflexivity|]. split; [|exact H2].
      exists x, t1. auto.
    + intros (t1 & a & t2 & -> & (x & t' & -> & H1) & H2).
      exists x, (t' +++ t2). split; [reflexivity|].
      apply IH. exists t', a, t2. auto.
Qed.

Lemma executes_perform {X : Type} (e : E X) t x :
  executes (perform e) t x <-> t = [observe e x].
Proof.
  simpl. split.
  - intros (x' & t' & -> & -> & ->). reflexivity.
  - intros ->. exists x, []. auto.
Qed.

Lemma executes_Ret {A : Type} (a b : A) t :
  executes (E := E) (Ret a) t b <-> t = [] /\ b = a.
Proof. reflexivity. Qed.

Lemma executes_seq {R : Type} (s1 s2 : stmt E R) t c :
  executes (s1 ;;; s2) t c <->
  (exists t1 t2, t = t1 +++ t2 /\ executes s1 t1 Normal /\ executes s2 t2 c)
  \/ (executes s1 t c /\ c <> Normal).
Proof.
  unfold seq. rewrite executes_bind. split.
  - intros (t1 & c1 & t2 & -> & H1 & H2). destruct c1; simpl in H2.
    + left. exists t1, t2. auto.
    + right. destruct H2 as [-> ->]. rewrite app_nil_r. split; [exact H1 | discriminate].
    + right. destruct H2 as [-> ->]. rewrite app_nil_r. split; [exact H1 | discriminate].
  - intros [(t1 & t2 & -> & H1 & H2) | [H1 Hc]].
    + exists t1, Normal, t2. auto.
    + exists t, c, []. rewrite app_nil_r. split; [reflexivity|]. split; [exact H1|].
      destruct c; simpl; auto. contradiction.
Qed.

Lemma executes_tryCatch {R : Type} (s : stmt E R) (h : error -> stmt E R) t c :
  executes (tryCatch s h) t c <->
  (exists t1 t2 e, t = t1 +++ t2 /\ executes s t1 (Throw e) /\ executes (h e) t2 c)
  \/ (executes s t c /\ forall e, c <> Throw e).
Proof.
  unfold tryCatch. rewrite executes_bind. split.
  - intros (t1 & c1 & t2 & -> & H1 & H2). destruct c1; simpl in H2.
    + right. destruct H2 as [-> ->]. rewrite app_nil_r. split; [exact H1 | discriminate].
    + right. destruct H2 as [-> ->]. rewrite app_nil_r. split; [exact H1 | discriminate].
    + left. exists t1, t2, e. auto.
  - intros [(t1 & t2 & e & -> & H1 & H2) | [H1 Hc]].
    + exists t1, (Throw e), t2. auto.
    + exists t, c, []. rewrite app_nil_r. split; [reflexivity|]. split; [exact H1|].
      destruct c; simpl; auto. exfalso. apply (Hc e). reflexivity.
Qed.

Lemma executes_call {X R : Type} (c : io E (result X)) (k : X -> stmt E R) t r :
  executes (call c k) t r <->
  (exists t1 t2 x, t = t1 +++ t2 /\ executes c t1 (Ok x) /\ executes (k x) t2 r)
  \/ (exists e, executes c t (Err e) /\ r = Throw e).
Proof.
  unfold call. rewrite executes_bind. split.
  - intros (t1 & a & t2 & -> & H1 & H2). destruct a; simpl in H2.
    + left. exists t1, t2, a. auto.
    + right. destruct H2 as [-> ->]. rewrite app_nil_r. exists e. auto.
  - intros [(t1 & t2 & x & -> & H1 & H2) | (e & H1 & ->)].
    + exists t1, (Ok x), t2. auto.
    + exists t, (Err e), []. rewrite app_nil_r. simpl. auto.
Qed.

Lemma run_bind {A B : Type} (h : forall X, E X -> X) (p : io E A) (f : A -> io E B) :
  run h (bind p f) = run h (f (run h p)).
Proof. induction p as [a | X e k IH]; simpl; auto. Qed.

Lemma trace_bind {A B : Type} (h : forall X, E X -> X) (p : io E A) (f : A -> io E B) :
  trace h (bind p f) = trace h p +++ trace h (f (run h p)).
Proof. induction p as [a | X e k IH]; simpl; [reflexivity | rewrite IH; reflexivity]. Qed.

(** The run against fixed answers is one of the executions. *)
Lemma executes_run {A : Type} (h : forall X, E X -> X) (p : io E A) :
  executes p (trace h p) (run h p).
Proof.
  induction p as [a | X e k IH]; simpl; [auto|].
  exists (h X e), (trace h (k (h X e))). auto.
Qed.

Lemma executes_by_run {A : Type} (h : forall X, E X -> X) (p : io E A) t a :
  trace h p = t -> run h p = a -> executes p t a.
Proof. intros <- <-. apply executes_run. Qed.

Lemma run_seq {R : Type} (h : forall X, E X -> X) (s1 s2 : stmt E R) :
  run h (s1 ;;; s2) = match run h s1 with
                      | Normal => run h s2
                      | c => c
                      end.
Proof. unfold seq. rewrite run_bind. destruct (run h s1); reflexivity. Qed.

Lemma run_tryCatch {R : Type} (h : forall X, E X -> X) (s : stmt E R) (hd : error -> stmt E R) :
  run h (tryCatch s hd) = match run h s with
                          | Throw e => run h (hd e)
                          | c => c
                          end.
Proof. unfold tryCatch. rewrite run_bind. destruct (run h s); reflexivity. Qed.

Lemma run_call {X R : Type} (h : forall X, E X -> X) (c : io E (result X)) (k : X -> stmt E R) :
  run h (call c k) = match run h c with
                     | Ok x => run h (k x)
                     | Err e => Throw e
                     end.
Proof. unfold call. rewrite run_bind. destruct (run h c); reflexivity. Qed.

End FreeFacts.

(* ===================================================================== *)
(** * The resolver in a file system that does not change *)
(* ===================================================================== *)

Section StaticResolution.

Variable path : PathModule.
Variable fs : FileSystem.


Lemma firstExisting_app l1 l2 :
  firstExisting fs (l1 +++ l2) =
  match firstExisting fs l1 with
  | Normal => firstExisting fs l2
  | c => c
  end.
Proof.
  unfold firstExisting. induction l1 as [| p l1 IH]; simpl; [reflexivity|].
  destruct (fsExists fs p); [reflexivity | exact IH].
Qed.

Lemma firstExisting_cons p l :
  firstExisting fs (p :: l) =
  if fsExists fs p then Return (Some p) else firstExisting fs l.
Proof. unfold firstExisting. simpl. destruct (fsExists fs p); reflexivity. Qed.

Lemma run_returnIfExists p :
  run (fsAnswer fs) (returnIfExists p) = firstExisting fs [p].
Proof. rewrite firstExisting_cons. simpl. destruct (fsExists fs p); reflexivity. Qed.

(** A loop whose body looks for the candidates [c x] looks for all of
    them, in the order of the list. *)
Lemma run_forOf {A : Type} (l : list A) (body : A -> stmt fsE (option string))
    (c : A -> list string) :
  (forall x, run (fsAnswer fs) (body x) = firstExisting fs (c x)) ->
  run (fsAnswer fs) (forOf l body) = firstExisting fs (flat_map c l).
Proof.
  intros Hbody. induction l as [| x l IH]; simpl; [reflexivity|].
  rewrite run_seq, Hbody, firstExisting_app, IH. reflexivity.
Qed.

Lemma flat_map_singleton {A B : Type} (f : A -> B) (l : list A) :
  flat_map (fun x => [f x]) l = map f l.
Proof. induction l; simpl; congruence. Qed.

Lemma flat_map_filter {A B : Type} (f : A -> B) (keep : A -> bool) (l : list A) :
  flat_map (fun x => if keep x then [f x] else []) l = map f (filter keep l).
Proof.
  induction l as [| x l IH]; simpl; [reflexivity|].
  destruct (keep x); simpl; congruence.
Qed.

Lemma run_when (b : bool) (s : stmt fsE (option string)) l :
  run (fsAnswer fs) s = firstExisting fs l ->
  run (fsAnswer fs) (when b s) = firstExisting fs (if b then l else []).
Proof. intros H. destruct b; simpl; [exact H | reflexivity]. Qed.

Lemma run_forOf_names dir names :
  run (fsAnswer fs)
      (forOf names (fun name => returnIfExists (resolve path dir name)))
  = firstExisting fs (inDirectory path dir names).
Proof.
  unfold inDirectory. rewrite <- flat_map_singleton.
  apply run_forOf. intros x. apply run_returnIfExists.
Qed.

Lemma run_directNames dir names :
  run (fsAnswer fs) (directNames path dir names)
  = firstExisting fs (inDirectory path dir names).
Proof. apply run_forOf_names. Qed.

Lemma run_existsSync {R : Type} p (k : bool -> stmt fsE R) :
  run (fsAnswer fs) (b <- existsSync p ;; k b) = run (fsAnswer fs) (k (fsExists fs p)).
Proof. reflexivity. Qed.

(** A scan: the listing, filtered, in the order of the listing; nothing
    when the directory cannot be listed. *)
Lemma run_scan dir (keep : string -> bool) (body : string -> stmt fsE (option string)) :
  (forall file, run (fsAnswer fs) (body file) =
                firstExisting fs (if keep file then [resolve path dir file] else [])) ->
  run (fsAnswer fs) (tryCatch (const filesInDirectory := readdirSync dir ;;
                        forOf filesInDirectory body)
                       (fun _ => Ret Normal))
  = firstExisting fs (inDirectory path dir (filter keep (listing fs dir))).
Proof.
  intros Hbody. rewrite run_tryCatch, run_call. unfold listing, inDirectory. simpl.
  destruct (fsReaddir fs dir) as [files | e]; [| reflexivity].
  rewrite (run_forOf files body _ Hbody), flat_map_filter.
  destruct (firstExisting fs (map (resolve path dir) (filter keep files))) eqn:Hf;
    try reflexivity.
  unfold firstExisting in Hf. destruct (find _ _); discriminate.
Qed.

Lemma run_supplementalScan dir stem :
  run (fsAnswer fs) (supplementalScan path dir stem) = firstExisting fs (priority3 path fs dir stem).
Proof.
  unfold supplementalScan, priority3. apply run_scan. intros file.
  apply run_when, run_returnIfExists.
Qed.

Lemma run_jsonScan dir stem :
  run (fsAnswer fs) (jsonScan path dir stem) = firstExisting fs (priority4 path fs dir stem).
Proof.
  unfold jsonScan, priority4. apply run_scan. intros file. unfold jsonScanAccepts.
  destruct (Js.startsWith file stem && Js.endsWith file ".json"); simpl; [| reflexivity].
  apply run_when, run_returnIfExists.
Qed.

Lemma run_truncationScan dir stem :
  run (fsAnswer fs) (truncationScan path dir stem) = firstExisting fs (priority5 path fs dir stem).
Proof.
  unfold truncationScan, priority5. apply run_scan. intros file.
  destruct (Js.endsWith file ".json"); simpl; [| reflexivity].
  apply run_when, run_returnIfExists.
Qed.

Lemma run_sameCounterImage dir stem imgExt :
  run (fsAnswer fs) (sameCounterImage path dir stem imgExt)
  = firstExisting fs (priority6a path fs dir stem imgExt).
Proof.
  unfold sameCounterImage, priority6a. rewrite run_existsSync.
  destruct (fsExists fs (resolve path dir (stem ++ imgExt))); [| reflexivity].
  unfold when. rewrite run_seq, run_forOf_names.
  unfold inDirectory. rewrite map_app, firstExisting_app.
  destruct (Regex.exec reCounter stem) as [m |].
  - rewrite run_returnIfExists. reflexivity.
  - reflexivity.
Qed.

Lemma run_baseImage dir stem imgExt :
  run (fsAnswer fs) (baseImage path dir stem imgExt)
  = firstExisting fs (priority6b path fs dir stem imgExt).
Proof.
  unfold baseImage, priority6b.
  destruct (Regex.exec reBaseName stem) as [m |]; [| reflexivity].
  rewrite run_existsSync.
  destruct (fsExists fs (resolve path dir (group stem m 1 ++ imgExt)));
    [| reflexivity].
  unfold when. rewrite run_seq, run_returnIfExists, run_forOf_names.
  unfold inDirectory. cbn [map].
  rewrite !firstExisting_cons.
  destruct (fsExists fs _); reflexivity.
Qed.

Lemma run_videoFallback dir stem ext :
  run (fsAnswer fs) (videoFallback path dir stem ext) = firstExisting fs (priority6 path fs dir stem ext).
Proof.
  unfold videoFallback, priority6.
  destruct (Js.includes videoExtensions (Js.toLowerCase ext)); unfold when; [| reflexivity].
  apply run_forOf. intros imgExt.
  rewrite run_seq, run_sameCounterImage, run_baseImage, firstExisting_app. reflexivity.
Qed.

Lemma trailing_of_names dir stem ext :
  inDirectory path dir (potentialJsonFileNames stem ext)
  = priority1 path dir stem ext +++ priority2 path dir stem ext.
Proof.
  unfold potentialJsonFileNames, priority1, priority2, inDirectory.
  rewrite !map_app, app_assoc. reflexivity.
Qed.

(** The resolver, strategy by strategy. *)
Lemma run_resolver (mediaFilePath : string) :
  let dir := directoryOf path mediaFilePath in
  let ext := extensionOf path mediaFilePath in
  let stem := stemOf path mediaFilePath in
  run (fsAnswer fs) (getCompanionJsonPathForMediaFile path mediaFilePath)
  = match firstExisting fs (priority1 path dir stem ext +++ priority2 path dir stem ext) with
    | Normal =>
        match firstExisting fs (priority3 path fs dir stem) with
        | Normal =>
            match firstExisting fs (priority4 path fs dir stem) with
            | Normal =>
                match firstExisting fs (priority5 path fs dir stem) with
                | Normal =>
                    match firstExisting fs (priority6 path fs dir stem ext) with
                    | Normal => Return None
                    | c => c
                    end
                | c => c
                end
            | c => c
            end
        | c => c
        end
    | c => c
    end.
Proof.
  intros dir ext stem. unfold getCompanionJsonPathForMediaFile.
  fold (directoryOf path mediaFilePath) (extensionOf path mediaFilePath). fold dir ext.
  change (stripEdited (basename path mediaFilePath ext)) with stem.
  rewrite !run_seq.
  rewrite run_directNames, trailing_of_names, run_supplementalScan, run_jsonScan,
    run_truncationScan, run_videoFallback.
  reflexivity.
Qed.


End StaticResolution.

(* ===================================================================== *)
(** * The resolver in any file system: what it checks, what it absorbs *)
(* ===================================================================== *)

Section Checked.

Variable path : PathModule.

Lemma checks_Normal : checksBeforeReturn (Ret Normal).
Proof. intros t c [_ ->]. left. reflexivity. Qed.

Lemma checks_returnIfExists p : checksBeforeReturn (returnIfExists p).
Proof.
  intros t c (b & t' & -> & H). destruct b; destruct H as [-> ->].
  - right. exists p, []. auto.
  - left. reflexivity.
Qed.

Lemma checks_seq s1 s2 :
  checksBeforeReturn s1 -> checksBeforeReturn s2 -> checksBeforeReturn (s1 ;;; s2).
Proof.
  intros H1 H2 t c H. apply executes_seq in H.
  destruct H as [(t1 & t2 & -> & _ & Hs2) | [Hs1 _]].
  - destruct (H2 _ _ Hs2) as [-> | (p & t' & -> & ->)]; [left; reflexivity|].
    right. exists p, (t1 +++ t'). rewrite app_assoc. auto.
  - exact (H1 _ _ Hs1).
Qed.

Lemma checks_when b s : checksBeforeReturn s -> checksBeforeReturn (when b s).
Proof. destruct b; simpl; [auto | intros _; apply checks_Normal]. Qed.

Lemma checks_forOf {A : Type} (l : list A) (body : A -> stmt fsE (option string)) :
  (forall x, checksBeforeReturn (body x)) -> checksBeforeReturn (forOf l body).
Proof.
  intros Hbody. induction l as [| x l IH]; simpl.
  - apply checks_Normal.
  - apply checks_seq; auto.
Qed.

Lemma checks_existsSync p (k : bool -> stmt fsE (option string)) :
  (forall b, checksBeforeReturn (k b)) -> checksBeforeReturn (b <- existsSync p ;; k b).
Proof.
  intros Hk t c (b & t' & -> & H).
  destruct (Hk b _ _ H) as [-> | (q & t'' & -> & ->)]; [left; reflexivity|].
  right. exists q, (Existence p b :: t''). auto.
Qed.

(** The executions of a scan: the listing fails and the scan completes
    normally at once, or the listing succeeds and the loop runs. *)
Lemma executes_scan dir (body : string -> stmt fsE (option string)) t c :
  executes (tryCatch (const filesInDirectory := readdirSync dir ;;
                      forOf filesInDirectory body)
                     (fun _ => Ret Normal)) t c
  <-> (exists e, t = [Listing dir (Err e)] /\ c = Normal)
      \/ (exists files t', t = Listing dir (Ok files) :: t'
                           /\ executes (tryCatch (forOf files body) (fun _ => Ret Normal)) t' c).
Proof.
  simpl. split.
  - intros (x & t' & -> & H). destruct x as [files | e].
    + right. exists files, t'. auto.
    + left. exists e. destruct H as [-> ->]. auto.
  - intros [(e & -> & ->) | (files & t' & -> & H)].
    + exists (Err e), []. simpl. auto.
    + exists (Ok files), t'. auto.
Qed.

Lemma checks_tryCatch s :
  checksBeforeReturn s -> checksBeforeReturn (tryCatch s (fun _ => Ret Normal)).
Proof.
  intros Hs t c H. apply executes_tryCatch in H.
  destruct H as [(t1 & t2 & e & -> & _ & [_ ->]) | [H _]].
  - left. reflexivity.
  - exact (Hs _ _ H).
Qed.

Lemma checks_scan dir (body : string -> stmt fsE (option string)) :
  (forall file, checksBeforeReturn (body file)) ->
  checksBeforeReturn (tryCatch (const filesInDirectory := readdirSync dir ;;
                                forOf filesInDirectory body)
                               (fun _ => Ret Normal)).
Proof.
  intros Hbody t c H. apply executes_scan in H.
  destruct H as [(e & -> & ->) | (files & t' & -> & H)]; [left; reflexivity|].
  destruct (checks_tryCatch _ (checks_forOf files body Hbody) _ _ H)
    as [-> | (p & t'' & -> & ->)]; [left; reflexivity|].
  right. exists p, (Listing dir (Ok files) :: t''). auto.
Qed.

Lemma checks_directNames dir names : checksBeforeReturn (directNames path dir names).
Proof. apply checks_forOf. intros. apply checks_returnIfExists. Qed.

Lemma checks_supplementalScan dir stem : checksBeforeReturn (supplementalScan path dir stem).
Proof.
  apply checks_scan. intros file. apply checks_when, checks_returnIfExists.
Qed.

Lemma checks_jsonScan dir stem : checksBeforeReturn (jsonScan path dir stem).
Proof.
  apply checks_scan. intros file. apply checks_when, checks_when, checks_returnIfExists.
Qed.

Lemma checks_truncationScan dir stem : checksBeforeReturn (truncationScan path dir stem).
Proof.
  apply checks_scan. intros file. apply checks_when, checks_when, checks_returnIfExists.
Qed.

Lemma checks_sameCounterImage dir stem imgExt :
  checksBeforeReturn (sameCounterImage path dir stem imgExt).
Proof.
  apply checks_existsSync. intros b. apply checks_when, checks_seq.
  - destruct (Regex.exec reCounter stem); [apply checks_returnIfExists | apply checks_Normal].
  - apply checks_forOf. intros. apply checks_returnIfExists.
Qed.

Lemma checks_baseImage dir stem imgExt :
  checksBeforeReturn (baseImage path dir stem imgExt).
Proof.
  unfold baseImage. destruct (Regex.exec reBaseName stem); [| apply checks_Normal].
  apply checks_existsSync. intros b. apply checks_when, checks_seq.
  - apply checks_returnIfExists.
  - apply checks_forOf. intros. apply checks_returnIfExists.
Qed.

Lemma checks_videoFallback dir stem ext : checksBeforeReturn (videoFallback path dir stem ext).
Proof.
  apply checks_when, checks_forOf. intros imgExt.
  apply checks_seq; [apply checks_sameCounterImage | apply checks_baseImage].
Qed.

(** Every execution of the resolver ends with [return null], or with the
    return of a path for which the last call was [existsSync] with the
    answer [true]. *)
Lemma resolver_executions mediaFilePath t c :
  executes (getCompanionJsonPathForMediaFile path mediaFilePath) t c ->
  c = Return None
  \/ exists p t', c = Return (Some p) /\ t = t' +++ [Existence p true].
Proof.
  unfold getCompanionJsonPathForMediaFile. intros H.
  repeat (apply executes_seq in H;
          destruct H as [(?t1 & ?t2 & -> & _ & H) | [H Hc]];
          [| match type of H with
             | executes ?s _ _ =>
                 assert (Hs : checksBeforeReturn s)
                   by first [ apply checks_directNames | apply checks_supplementalScan
                            | apply checks_jsonScan | apply checks_truncationScan
                            | apply checks_videoFallback ];
                 destruct (Hs _ _ H) as [-> | (p & t' & -> & ->)];
                 [ contradiction
                 | right; exists p;
                   repeat rewrite app_assoc; eexists; split; reflexivity ]
             end]).
  destruct H as [-> ->]. left. reflexivity.
Qed.

(** C2. In every execution, whatever the file system answers, a path that
    the resolver returns is the path of the last call it made, an existence
    check that answered [true]: no path is returned unchecked. *)
Theorem returned_path_passed_existence_check (mediaFilePath : string)
    (t : list fsEvent) (p : string) :
  executes (getCompanionJsonPathForMediaFile path mediaFilePath) t (Return (Some p)) ->
  exists t', t = t' +++ [Existence p true].
Proof.
  intros H. destruct (resolver_executions _ _ _ H) as [Hc | (q & t' & Hc & ->)].
  - discriminate.
  - injection Hc as ->. exists t'. reflexivity.
Qed.



End Checked.

(* ===================================================================== *)
(** * The base-name normaliser *)
(* ===================================================================== *)

Section Edited.

(** Under the [i] flag the letters of [-edited] match both of their cases
    and nothing else. *)
Lemma litI_lower (p c : ascii) :
  In p ["e"; "d"; "i"; "t"]%char ->
  eqbNoCase p c = Ascii.eqb (Js.toLowerChar c) p.
Proof.
  intros Hp. simpl in Hp.
  destruct Hp as [<- | [<- | [<- | [<- | []]]]];
    destruct c as [[] [] [] [] [] [] [] []]; reflexivity.
Qed.

Lemma lit_dash (c : ascii) : Ascii.eqb "-" c = Ascii.eqb (Js.toLowerChar c) "-".
Proof. destruct c as [[] [] [] [] [] [] [] []]; reflexivity. Qed.

(** [/[-]edited$/i] at one position: the rest of the input is [-edited] in
    some case. *)
Lemma matchAt_reEdited (x : string) (pos : nat) (ms : list nat) :
  matchAt reEdited x pos ms =
  if String.eqb (Js.toLowerCase x) "-edited" then Some (pos + 7, ms) else None.
Proof.
  unfold reEdited.
  destruct x as [| c0 x]; [reflexivity|].
  cbn [matchAt lit litI Js.toLowerCase String.eqb]. rewrite lit_dash.
  destruct (Ascii.eqb (Js.toLowerChar c0) "-"); [| reflexivity].
  do 6 (destruct x as [| ?c x]; [reflexivity|];
        cbn [matchAt lit litI Js.toLowerCase String.eqb];
        rewrite litI_lower by (simpl; tauto);
        match goal with
        | |- context [Ascii.eqb (Js.toLowerChar ?c) ?p] =>
            destruct (Ascii.eqb (Js.toLowerChar c) p); [| reflexivity]
        end).
  destruct x; cbn [matchAt Js.toLowerCase String.eqb]; [| reflexivity].
  f_equal. f_equal. lia.
Qed.

Lemma search_reEdited (s suffix : string) (pos : nat) :
  Js.toLowerCase suffix = "-edited" ->
  search reEdited (s ++ suffix) pos
  = Some (MatchResult (pos + String.length s) (pos + String.length s + 7) []).
Proof.
  intros Hsuf. revert pos. induction s as [| c s IH]; intros pos.
  - simpl "++". destruct suffix as [| c suffix]; [discriminate|].
    cbn [search]. rewrite matchAt_reEdited, Hsuf. simpl. rewrite Nat.add_0_r. reflexivity.
  - simpl "++". cbn [search]. rewrite matchAt_reEdited.
    destruct (String.eqb (Js.toLowerCase (String c (s ++ suffix))) "-edited") eqn:He.
    + apply eqb_length in He. rewrite toLowerCase_length in He.
      simpl in He. rewrite length_append in He.
      rewrite <- (toLowerCase_length suffix), Hsuf in He. simpl in He. lia.
    + rewrite IH. simpl. rewrite !Nat.add_succ_r. reflexivity.
Qed.

(** One suffix [-edited], in any case, is removed, and nothing else. *)
Lemma stripEdited_suffix (stem suffix : string) :
  Js.toLowerCase suffix = "-edited" -> stripEdited (stem ++ suffix) = stem.
Proof.
  intros Hsuf. unfold stripEdited, Regex.replace, Regex.exec.
  rewrite (search_reEdited stem suffix 0 Hsuf). cbn [index matchEnd].
  unfold Js.sliceTo, Js.sliceFrom. simpl "+".
  rewrite substring_prefix. simpl "++".
  assert (Hlen : String.length suffix = 7).
  { rewrite <- toLowerCase_length, Hsuf. reflexivity. }
  rewrite length_append, Hlen.
  replace (String.length stem + 7 - (String.length stem + 7)) with 0 by lia.
  rewrite substring_zero_length. apply append_empty_r.
Qed.

(** A stem that does not end with [-edited] is left as it is. *)
Lemma stripEdited_other (stem : string) :
  (forall pre suffix, stem = pre ++ suffix -> Js.toLowerCase suffix <> "-edited") ->
  stripEdited stem = stem.
Proof.
  intros H. unfold stripEdited, Regex.replace, Regex.exec.
  pose proof (search_spec reEdited stem 0) as Hs.
  destruct (search reEdited stem 0) as [r |]; [| reflexivity].
  destruct Hs as (pre & x & -> & _ & Hx & _). rewrite matchAt_reEdited in Hx.
  destruct (String.eqb (Js.toLowerCase x) "-edited") eqn:He; [| discriminate].
  apply String.eqb_eq in He. exfalso. exact (H pre x eq_refl He).
Qed.

(** C6. A stem that ends with [-edited], in any case of the letters, loses
    exactly that one suffix, whatever precedes it: [foo-edited-edited]
    becomes [foo-edited].  The normalised stem is the only stem the
    strategies see: a file whose base name is that of another file of the
    directory followed by [-edited] is resolved by the same program as
    that file. *)
Theorem normaliser_strips_exactly_one_edited_suffix :
  (forall stem suffix : string,
      Js.toLowerCase suffix = "-edited" -> stripEdited (stem ++ suffix) = stem)
  /\ stripEdited "foo-edited-edited" = "foo-edited"
  /\ (forall (path : PathModule) (original edited suffix : string),
       Js.toLowerCase suffix = "-edited" ->
       dirname path edited = dirname path original ->
       extname path edited = extname path original ->
       basename path edited (extname path edited)
         = basename path original (extname path original) ++ suffix ->
       stripEdited (basename path original (extname path original))
         = basename path original (extname path original) ->
       getCompanionJsonPathForMediaFile path edited
       = getCompanionJsonPathForMediaFile path original).
Proof.
  split; [| split].
  - exact stripEdited_suffix.
  - apply (stripEdited_suffix "foo-edited" "-edited"). reflexivity.
  - intros path original edited suffix Hsuf Hdir Hext Hbase Horig.
    unfold getCompanionJsonPathForMediaFile.
    rewrite Hbase, (stripEdited_suffix _ _ Hsuf), Horig, Hdir, Hext. reflexivity.
Qed.

Lemma normaliser_strips_exactly_one_edited_suffix_witness :
  stripEdited ("foo-edited" ++ "-EdItEd") = "foo-edited"
  /\ getCompanionJsonPathForMediaFile (Posix.pathModule "/") "/d/foo-EDITED.jpg"
     = getCompanionJsonPathForMediaFile (Posix.pathModule "/") "/d/foo.jpg".
Proof.
  split.
  - apply (proj1 normaliser_strips_exactly_one_edited_suffix "foo-edited" "-EdItEd").
    reflexivity.
  - apply (proj2 (proj2 normaliser_strips_exactly_one_edited_suffix)
             (Posix.pathModule "/") "/d/foo.jpg" "/d/foo-EDITED.jpg" "-EDITED");
      reflexivity.
Defined.

End Edited.

(* ===================================================================== *)
(** * The scan of the [.json] entries and the parity of counters *)
(* ===================================================================== *)

Section JsonScan.

Lemma append_inj_r (a b c : string) : a ++ c = b ++ c -> a = b.
Proof.
  intros H.
  assert (Hlen : String.length a = String.length b).
  { apply (f_equal String.length) in H. rewrite !length_append in H. lia. }
  rewrite <- (substring_prefix a c), H, Hlen. apply substring_prefix.
Qed.

(** A loop returns what one of its iterations returns. *)
Lemma executes_forOf_Return {E : Type -> Type} {observed : Observed E} {A R : Type}
    (l : list A) (body : A -> stmt E R) t v :
  executes (forOf l body) t (Return v) ->
  exists x t1 t2, In x l /\ t = t1 +++ t2 /\ executes (body x) t2 (Return v).
Proof.
  revert t. induction l as [| x l IH]; intros t H; simpl in H.
  - destruct H as [_ H]. discriminate.
  - apply executes_seq in H. destruct H as [(t1 & t2 & -> & _ & H) | [H _]].
    + destruct (IH _ H) as (y & u1 & u2 & Hy & -> & Hb).
      exists y, (t1 +++ u1), u2. rewrite app_assoc. simpl. auto.
    + exists x, [], t. simpl. auto.
Qed.

Lemma executes_when_Return {E : Type -> Type} {observed : Observed E} {R : Type}
    (b : bool) (s : stmt E R) t v :
  executes (when b s) t (Return v) -> b = true /\ executes s t (Return v).
Proof. destruct b; simpl; [auto | intros [_ H]; discriminate]. Qed.

Lemma executes_returnIfExists_Return p t q :
  executes (returnIfExists p) t (Return (Some q)) -> q = p /\ t = [Existence p true].
Proof.
  intros (b & t' & -> & H). destruct b; destruct H as [-> H]; [| discriminate].
  injection H as ->. auto.
Qed.

(** The second scan returns the path of an entry of the listing that it
    accepts. *)
Lemma jsonScan_returns_accepted (path : PathModule) dir stem t p :
  executes (jsonScan path dir stem) t (Return (Some p)) ->
  exists files file t',
    t = Listing dir (Ok files) :: t' /\ In file files
    /\ jsonScanAccepts stem file = true /\ p = resolve path dir file.
Proof.
  unfold jsonScan. intros H. apply executes_scan in H.
  destruct H as [(e & _ & H) | (files & t' & -> & H)]; [discriminate|].
  apply executes_tryCatch in H.
  destruct H as [(t1 & t2 & e & _ & _ & [_ H]) | [H _]]; [discriminate|].
  apply executes_forOf_Return in H. destruct H as (file & t1 & t2 & Hin & -> & H).
  apply executes_when_Return in H. destruct H as [H1 H].
  apply executes_when_Return in H. destruct H as [H2 H].
  apply executes_returnIfExists_Return in H. destruct H as [-> _].
  exists files, file, (t1 +++ t2). unfold jsonScanAccepts. rewrite H1, H2. auto.
Qed.

(** What acceptance means, without the matcher. *)
Lemma jsonScanAccepts_iff (stem file : string) :
  jsonScanAccepts stem file = true <->
  (exists rest, file = stem ++ rest)
  /\ exists base, file = base ++ ".json" /\ (endsWithCounter base <-> endsWithCounter stem).
Proof.
  unfold jsonScanAccepts.
  rewrite !andb_true_iff, startsWith_iff, endsWith_iff, Bool.eqb_true_iff.
  split.
  - intros [[Hpre (base & ->)] Hpar]. split; [exact Hpre|]. exists base.
    split; [reflexivity|]. rewrite <- (test_reCounter stem), <- Hpar.
    rewrite test_reCounterJson. split.
    + intros Hb. exists base. auto.
    + intros (base' & Heq & Hb). apply append_inj_r in Heq. subst base'. exact Hb.
  - intros [Hpre (base & -> & Hpar)]. repeat split; [exact Hpre | exists base; reflexivity |].
    apply eq_true_iff_eq. rewrite test_reCounter, <- Hpar, test_reCounterJson. split.
    + intros (base' & Heq & Hb). apply append_inj_r in Heq. subst base'. exact Hb.
    + intros Hb. exists base. auto.
Qed.

(** C4. The second scan returns only the path of an entry of the listing
    that starts with the stem, ends in [.json], and has a counter before
    [.json] exactly when the stem ends with a counter.  For [SNOW.mp4] the
    entry [SNOW.mp4.supplemental-metadata(1).json] is not accepted: the scan
    completes normally, the later strategies run (the third listing and the
    checks of the sibling images), and, with [SNO.json] in the directory,
    the third scan returns it. *)
Theorem json_scan_is_counter_parity_gated :
  (forall (path : PathModule) (dir stem : string) (t : list fsEvent) (p : string),
      executes (jsonScan path dir stem) t (Return (Some p)) ->
      exists files file base t',
        t = Listing dir (Ok files) :: t' /\ In file files
        /\ p = resolve path dir file
        /\ Js.startsWith file stem = true
        /\ file = base ++ ".json"
        /\ (endsWithCounter base <-> endsWithCounter stem))
  /\ jsonScanAccepts "SNOW" "SNOW.mp4.supplemental-metadata(1).json" = false
  /\ (let fs := directory "/d" ["SNOW.mp4"; "SNOW.mp4.supplemental-metadata(1).json"] in
      run (fsAnswer fs) (jsonScan (Posix.pathModule "/") "/d" "SNOW") = Normal
      /\ trace (fsAnswer fs)
               (getCompanionJsonPathForMediaFile (Posix.pathModule "/") "/d/SNOW.mp4")
         = [ Existence "/d/SNOW.json" false;
             Existence "/d/SNOW.mp4.json" false;
             Existence "/d/SNOW.mp4.supplemental-metadata.json" false;
             Listing "/d" (Ok ["SNOW.mp4"; "SNOW.mp4.supplemental-metadata(1).json"]);
             Listing "/d" (Ok ["SNOW.mp4"; "SNOW.mp4.supplemental-metadata(1).json"]);
             Listing "/d" (Ok ["SNOW.mp4"; "SNOW.mp4.supplemental-metadata(1).json"]);
             Existence "/d/SNOW.jpg" false;
             Existence "/d/SNOW.jpeg" false;
             Existence "/d/SNOW.png" false;
             Existence "/d/SNOW.gif" false;
             Existence "/d/SNOW.bmp" false;
             Existence "/d/SNOW.heic" false;
             Existence "/d/SNOW.webp" false ]
      /\ resolveIn fs "/d/SNOW.mp4" = Return None)
  /\ resolveIn (directory "/d" ["SNOW.mp4"; "SNOW.mp4.supplemental-metadata(1).json";
                                "SNO.json"])
               "/d/SNOW.mp4"
     = Return (Some "/d/SNO.json").
Proof.
  split; [| split; [| split; [cbv zeta; split; [| split] |]]; vm_compute; reflexivity].
  intros path dir stem t p H.
  apply jsonScan_returns_accepted in H.
  destruct H as (files & file & t' & -> & Hin & Hacc & ->).
  pose proof Hacc as Hstart. unfold jsonScanAccepts in Hstart.
  rewrite !andb_true_iff in Hstart. destruct Hstart as [[Hstart _] _].
  apply jsonScanAccepts_iff in Hacc. destruct Hacc as [_ (base & -> & Hpar)].
  exists files, (base ++ ".json"), base, t'. repeat split; auto; apply Hpar.
Qed.

Lemma json_scan_is_counter_parity_gated_witness :
  exists files file base t',
    [ Listing "/d" (Ok ["IMG.jpg"; "IMG_full.json"]);
      Existence "/d/IMG_full.json" true ]
    = Listing "/d" (Ok files) :: t'
    /\ In file files
    /\ "/d/IMG_full.json" = resolve (Posix.pathModule "/") "/d" file
    /\ Js.startsWith file "IMG" = true
    /\ file = base ++ ".json"
    /\ (endsWithCounter base <-> endsWithCounter "IMG").
Proof.
  apply (proj1 json_scan_is_counter_parity_gated (Posix.pathModule "/") "/d" "IMG"
           [ Listing "/d" (Ok ["IMG.jpg"; "IMG_full.json"]);
             Existence "/d/IMG_full.json" true ]
           "/d/IMG_full.json").
  simpl. eexists; eexists; split; [reflexivity|]. simpl.
  eexists; eexists; split; [reflexivity|]. simpl. auto.
Defined.

End JsonScan.

(* ===================================================================== *)
(** * The fallback from a video to its sibling image *)
(* ===================================================================== *)

Section VideoFallback.








End VideoFallback.

(* ===================================================================== *)
(** * The candidates with the counter behind the extension *)
(* ===================================================================== *)

Section CounterCandidates.

Lemma digit_dot (c : ascii) : digit c = true -> dot c = true.
Proof. destruct c as [[] [] [] [] [] [] [] []]; simpl; intros H; first [reflexivity | discriminate]. Qed.

Lemma digit_not_open (c : ascii) : digit c = true -> Ascii.eqb "(" c = false.
Proof. destruct c as [[] [] [] [] [] [] [] []]; simpl; intros H; first [reflexivity | discriminate]. Qed.

(** Inside the digits and the closing parenthesis no counter begins. *)
Lemma starGreedy_inside_counter (ms : list nat) (ds : string) (pos : nat) :
  allDigits ds = true ->
  starGreedy dot (fun rest pos => matchAt afterName rest pos ms) (ds ++ ")") pos = None.
Proof.
  revert pos. induction ds as [| d ds IH]; intros pos Hds.
  - reflexivity.
  - simpl in Hds. apply andb_true_iff in Hds. destruct Hds as [Hd Hds].
    simpl "++". cbn [starGreedy]. rewrite (digit_dot d Hd), (IH (S pos) Hds).
    unfold afterName. cbn [matchAt lit]. rewrite (digit_not_open d Hd). reflexivity.
Qed.

Lemma matchAt_afterName (ms : list nat) (ds : string) (pos : nat) :
  ds <> "" -> allDigits ds = true ->
  matchAt afterName ("(" ++ ds ++ ")") pos ms
  = Some (pos + String.length ds + 2,
          ms +++ [pos] +++ [pos] +++ [pos + String.length ds + 2]).
Proof.
  intros Hne Hds. unfold afterName. rewrite !matchAt_Mark.
  apply matchAt_counter. exists ds, "". repeat split; auto.
  rewrite matchAt_Mark. cbn [matchAt]. rewrite <- !app_assoc. reflexivity.
Qed.

(** [.*] runs to the end of the input and comes back to the counter. *)
Lemma starGreedy_name (ms : list nat) (pre ds : string) (pos : nat) :
  singleLine pre = true -> ds <> "" -> allDigits ds = true ->
  starGreedy dot (fun rest pos => matchAt afterName rest pos ms)
             (pre ++ "(" ++ ds ++ ")") pos
  = matchAt afterName ("(" ++ ds ++ ")") (pos + String.length pre) ms.
Proof.
  intros Hpre Hne Hds. revert pos. induction pre as [| a pre IH]; intros pos.
  - simpl "++" at 1. simpl String.length. rewrite Nat.add_0_r.
    change ("(" ++ ds ++ ")") with (String "(" (ds ++ ")")).
    cbn [starGreedy]. change (dot "(") with true. cbv iota.
    rewrite (starGreedy_inside_counter ms ds (S pos) Hds). reflexivity.
  - simpl in Hpre. apply andb_true_iff in Hpre. destruct Hpre as [Ha Hpre].
    change (String a pre ++ "(" ++ ds ++ ")") with (String a (pre ++ "(" ++ ds ++ ")")).
    cbn [starGreedy]. rewrite Ha, (IH Hpre (S pos)).
    replace (pos + String.length (String a pre)) with (S pos + String.length pre)
      by (simpl; lia).
    rewrite (matchAt_afterName ms ds _ Hne Hds). reflexivity.
Qed.

Lemma exec_reNameCounter (pre ds : string) :
  singleLine pre = true -> ds <> "" -> allDigits ds = true ->
  Regex.exec reNameCounter (pre ++ "(" ++ ds ++ ")")
  = Some (MatchResult 0 (String.length pre + String.length ds + 2)
            [0; String.length pre; String.length pre;
             String.length pre + String.length ds + 2]).
Proof.
  intros Hpre Hne Hds. unfold Regex.exec.
  assert (Hm : matchAt reNameCounter (pre ++ "(" ++ ds ++ ")") 0 []
               = Some (String.length pre + String.length ds + 2,
                       [0; String.length pre; String.length pre;
                        String.length pre + String.length ds + 2])).
  { unfold reNameCounter. rewrite matchAt_Mark, matchAt_Star. fold afterName.
    rewrite (starGreedy_name _ pre ds 0 Hpre Hne Hds).
    rewrite (matchAt_afterName _ ds _ Hne Hds). reflexivity. }
  destruct (pre ++ "(" ++ ds ++ ")"); cbn [search]; rewrite Hm; reflexivity.
Qed.

(** When no line terminator precedes the counter, the two candidates are
    the stem without the counter, the extension, and the counter. *)
Lemma counterCandidates_single_line (pre ds ext : string) :
  singleLine pre = true -> ds <> "" -> allDigits ds = true ->
  counterCandidates (pre ++ "(" ++ ds ++ ")") ext
  = [ pre ++ ext ++ "(" ++ ds ++ ")" ++ ".json";
      pre ++ ext ++ ".supplemental-metadata" ++ "(" ++ ds ++ ")" ++ ".json" ].
Proof.
  intros Hpre Hne Hds. unfold counterCandidates.
  rewrite (exec_reNameCounter pre ds Hpre Hne Hds).
  unfold group, Js.slice. cbn [marks nth Nat.mul Nat.add Nat.sub].
  rewrite Nat.sub_0_r, substring_prefix.
  replace (String.length pre + String.length ds + 2 - String.length pre)
    with (String.length ("(" ++ ds ++ ")"))
    by (simpl; rewrite length_append; simpl; lia).
  rewrite substring_suffix.
  rewrite !append_assoc. reflexivity.
Qed.

(** [.*] and the rest of the pattern match only an input that ends with a
    counter. *)
Lemma starGreedy_name_counter (ms : list nat) (x : string) (pos : nat) m :
  starGreedy dot (fun rest pos => matchAt afterName rest pos ms) x pos = Some m ->
  endsWithCounter x.
Proof.
  assert (Hk : forall y pos, matchAt afterName y pos ms = Some m -> endsWithCounter y).
  { intros y pos' Hk. unfold afterName in Hk. rewrite !matchAt_Mark in Hk.
    apply matchAt_counter in Hk. destruct Hk as (ds & z & -> & Hne & Hds & Hz).
    rewrite matchAt_Mark in Hz. apply matchAt_Eos in Hz. destruct Hz as [-> _].
    exists "", ("(" ++ ds ++ ")"). split; [reflexivity|]. exists ds. auto. }
  revert pos. induction x as [| c x IH]; intros pos Hx.
  - exact (Hk _ _ Hx).
  - cbn [starGreedy] in Hx. destruct (dot c); [| exact (Hk _ _ Hx)].
    destruct (starGreedy dot _ x (S pos)) as [m' |] eqn:Hs; [| exact (Hk _ _ Hx)].
    injection Hx as ->. destruct (IH _ Hs) as (pre & cnt & -> & Hcnt).
    exists (String c pre), cnt. auto.
Qed.

(** A stem without a counter has no such candidates. *)
Lemma counterCandidates_none (stem ext : string) :
  ~ endsWithCounter stem -> counterCandidates stem ext = [].
Proof.
  intros Hno. unfold counterCandidates, Regex.exec.
  pose proof (search_spec reNameCounter stem 0) as Hs.
  destruct (search reNameCounter stem 0) as [m |]; [| reflexivity].
  exfalso. apply Hno.
  destruct Hs as (pre & x & -> & _ & Hx & _).
  unfold reNameCounter in Hx. rewrite matchAt_Mark, matchAt_Star in Hx.
  fold afterName in Hx. apply starGreedy_name_counter in Hx.
  destruct Hx as (pre' & cnt & -> & Hcnt).
  exists (pre ++ pre'), cnt. rewrite append_assoc. auto.
Qed.

(** The example of the counter moved behind the extension. *)
Lemma counter_relocation_example (fs : FileSystem) :
  fsExists fs "/d/foo(1).json" = false ->
  fsExists fs "/d/foo(1).jpg.json" = false ->
  fsExists fs "/d/foo(1).jpg.supplemental-metadata.json" = false ->
  fsExists fs "/d/foo.jpg(1).json" = true ->
  resolveIn fs "/d/foo(1).jpg" = Return (Some "/d/foo.jpg(1).json").
Proof.
  intros H1 H2 H3 H4. unfold resolveIn. rewrite run_resolver. cbv zeta.
  replace (priority1 (Posix.pathModule "/") (directoryOf (Posix.pathModule "/") "/d/foo(1).jpg")
             (stemOf (Posix.pathModule "/") "/d/foo(1).jpg")
             (extensionOf (Posix.pathModule "/") "/d/foo(1).jpg"))
    with ["/d/foo(1).json"; "/d/foo(1).jpg.json";
          "/d/foo(1).jpg.supplemental-metadata.json"; "/d/foo.jpg(1).json";
          "/d/foo.jpg.supplemental-metadata(1).json"]
    by (vm_compute; reflexivity).
  rewrite firstExisting_app, !firstExisting_cons, H1, H2, H3, H4. reflexivity.
Qed.

(** C3, at its failing input.  For the stem made of [a], a line feed and
    [b(1)], the candidates with the counter behind the extension are built
    from [b] alone, since [.] does not match a line terminator: the
    candidate that the claim describes, the whole stem without its counter
    followed by [.jpg(1).json], is not among the names that are tried, its
    file is not found when it exists, and the sidecar of another file,
    [b.jpg(1).json], is returned when that one exists. *)
Theorem counter_candidates_after_line_feed :
  let stem := "a" ++ lineFeed ++ "b(1)" in
  let sidecar := "a" ++ lineFeed ++ "b.jpg(1).json" in
  endsWithCounter stem
  /\ counterCandidates stem ".jpg"
     = [ "b.jpg(1).json"; "b.jpg.supplemental-metadata(1).json" ]
  /\ ~ In sidecar (potentialJsonFileNames stem ".jpg")
  /\ resolveIn (directory "/d" [stem ++ ".jpg"; sidecar]) ("/d/" ++ stem ++ ".jpg")
     = Return None
  /\ resolveIn (directory "/d" [stem ++ ".jpg"; sidecar; "b(1).jpg"; "b.jpg(1).json"])
               ("/d/" ++ stem ++ ".jpg")
     = Return (Some "/d/b.jpg(1).json").
Proof.
  cbv zeta. split; [| split; [| split; [| split]]].
  - exists ("a" ++ lineFeed ++ "b"), "(1)". split; [reflexivity|].
    exists "1". repeat split. discriminate.
  - vm_compute. reflexivity.
  - vm_compute. intros H. repeat (destruct H as [H | H]; [discriminate|]). exact H.
  - vm_compute. reflexivity.
  - vm_compute. reflexivity.
Qed.

End CounterCandidates.

(* ===================================================================== *)
(** * The writer and the verifier *)
(* ===================================================================== *)

Section ExifFacts.

Variable ExifDate : Type.
Variable path : PathModule.
Variable doesFileSupportExif : string -> bool.
Variable toISOString : string -> result string.
Variable exifDateToISOString : ExifDate -> result string.

Local Abbreviation update :=
  (updateExifMetadata ExifDate path doesFileSupportExif toISOString).
Local Abbreviation verify :=
  (doesExifDateMatchPhotoTakenTime doesFileSupportExif exifDateToISOString).
Local Abbreviation tagsOf fileInfo isoString :=
  (metadataTagsFor (Js.toLowerCase (extname path (outputFilePath fileInfo)))
                   (utcFormatted isoString)).

(** The copy of the companion JSON, when there is one. *)
Lemma hasCompanionJson_Some (fileInfo : MediaFileInfo) :
  hasCompanionJson fileInfo = true ->
  exists jp jn, jsonFilePath fileInfo = Some jp /\ jsonFileName fileInfo = Some jn.
Proof.
  unfold hasCompanionJson, Js.truthy. intros H.
  destruct (jsonFilePath fileInfo) as [jp |], (jsonFileName fileInfo) as [jn |];
    rewrite ?andb_false_r in H; try discriminate.
  exists jp, jn. auto.
Qed.

(** The executions of the [catch] block. *)
Lemma executes_copyToErrorDir (fileInfo : MediaFileInfo) (errorDir : string) t c :
  executes (copyToErrorDir ExifDate path fileInfo errorDir) t c <->
  (exists e1,
      t = [Copied (outputFilePath fileInfo)
             (resolve path errorDir (mediaFileName fileInfo)) (Err e1)]
      /\ c = Throw e1)
  \/ (hasCompanionJson fileInfo = false
      /\ t = [Copied (outputFilePath fileInfo)
                (resolve path errorDir (mediaFileName fileInfo)) (Ok tt)]
      /\ c = Normal)
  \/ (hasCompanionJson fileInfo = true
      /\ exists jp jn a2,
           jsonFilePath fileInfo = Some jp /\ jsonFileName fileInfo = Some jn
           /\ t = [Copied (outputFilePath fileInfo)
                     (resolve path errorDir (mediaFileName fileInfo)) (Ok tt);
                   Copied jp (resolve path errorDir jn) a2]
           /\ c = match a2 with Ok _ => Normal | Err e2 => Throw e2 end).
Proof.
  unfold copyToErrorDir. split.
  - simpl. intros (a1 & t1 & -> & H). destruct a1 as [[] | e1].
    + destruct (hasCompanionJson fileInfo) eqn:Hj.
      * destruct (hasCompanionJson_Some _ Hj) as (jp & jn & Hjp & Hjn).
        rewrite Hjp, Hjn in H. simpl in H. destruct H as (a2 & t2 & -> & H).
        right. right. split; [reflexivity|]. exists jp, jn, a2.
        destruct a2; simpl in H; destruct H as [-> ->]; auto.
      * simpl in H. destruct H as [-> ->]. right. left. auto.
    + simpl in H. destruct H as [-> ->]. left. exists e1. auto.
  - intros [(e1 & -> & ->) | [(Hj & -> & ->) | (Hj & jp & jn & a2 & Hjp & Hjn & -> & ->)]].
    + simpl. exists (Err e1), []. simpl. auto.
    + simpl. exists (Ok tt), []. rewrite Hj. simpl. auto.
    + simpl. exists (Ok tt). eexists. split; [reflexivity|].
      rewrite Hj, Hjp, Hjn. simpl. exists a2, []. destruct a2; simpl; auto.
Qed.

(** The executions of the [try] block. *)
Lemma executes_writeTimestamp (fileInfo : MediaFileInfo) (timeTaken : string) t c :
  executes (writeTimestamp ExifDate path toISOString fileInfo timeTaken) t c <->
  (exists e0, toISOString timeTaken = Err e0 /\ t = [] /\ c = Throw e0)
  \/ (exists isoString,
        toISOString timeTaken = Ok isoString
        /\ ((exists e, t = [Written (outputFilePath fileInfo)
                              (tagsOf fileInfo isoString) (Err e)]
                       /\ c = Throw e)
            \/ (exists e, t = [Written (outputFilePath fileInfo)
                                 (tagsOf fileInfo isoString) (Ok tt);
                               Unlinked (outputFilePath fileInfo ++ "_original")
                                 (Err e)]
                          /\ c = Throw e)
            \/ (t = [Written (outputFilePath fileInfo)
                       (tagsOf fileInfo isoString) (Ok tt);
                     Unlinked (outputFilePath fileInfo ++ "_original") (Ok tt)]
                /\ c = Normal))).
Proof.
  unfold writeTimestamp. destruct (toISOString timeTaken) as [isoString | e0]; simpl.
  - split.
    + intros (a1 & t1 & -> & H). right. exists isoString. split; [reflexivity|].
      destruct a1 as [[] | e]; simpl in H.
      * destruct H as (a2 & t2 & -> & H). destruct a2 as [[] | e]; simpl in H;
          destruct H as [-> ->]; [right; right | right; left; exists e]; auto.
      * destruct H as [-> ->]. left. exists e. auto.
    + intros [(e0 & H & _) | (iso & Hiso & H)]; [discriminate|].
      injection Hiso as <-.
      destruct H as [(e & -> & ->) | [(e & -> & ->) | [-> ->]]].
      * exists (Err e), []. simpl. auto.
      * exists (Ok tt). eexists. split; [reflexivity|]. simpl.
        exists (Err e), []. simpl. auto.
      * exists (Ok tt). eexists. split; [reflexivity|]. simpl.
        exists (Ok tt), []. simpl. auto.
  - split.
    + intros [-> ->]. left. exists e0. auto.
    + intros [(e & He & -> & ->) | (iso & Hiso & _)]; [| discriminate].
      injection He as <-. auto.
Qed.

Lemma writeTimestamp_completion (fileInfo : MediaFileInfo) (timeTaken : string) t c :
  executes (writeTimestamp ExifDate path toISOString fileInfo timeTaken) t c ->
  c = Normal \/ exists e, c = Throw e.
Proof.
  intros H. apply executes_writeTimestamp in H.
  destruct H as [(e0 & _ & _ & ->) | (iso & _ & [(e & _ & ->) | [(e & _ & ->) | [_ ->]]])];
    eauto.
Qed.

(** The writer, when the file supports embedded metadata: the [try] block,
    then the [catch] block if it threw. *)
Lemma executes_update (fileInfo : MediaFileInfo) (timeTaken errorDir : string) t r :
  doesFileSupportExif (outputFilePath fileInfo) = true ->
  executes (update fileInfo timeTaken errorDir) t r <->
  (exists t1 t2 e c,
      t = t1 +++ t2
      /\ executes (writeTimestamp ExifDate path toISOString fileInfo timeTaken) t1 (Throw e)
      /\ executes (copyToErrorDir ExifDate path fileInfo errorDir) t2 c
      /\ r = settle tt c)
  \/ (executes (writeTimestamp ExifDate path toISOString fileInfo timeTaken) t Normal
      /\ r = Ok tt).
Proof.
  intros Hs. unfold updateExifMetadata, updateExifMetadataBody. rewrite Hs.
  rewrite executes_bind. unfold seq. simpl bind. split.
  - intros (t1 & c & t2 & -> & H & [-> ->]). rewrite app_nil_r.
    apply executes_tryCatch in H.
    destruct H as [(u1 & u2 & e & -> & H1 & H2) | [H Hc]].
    + left. exists u1, u2, e, c. auto.
    + right. destruct (writeTimestamp_completion _ _ _ _ H) as [-> | (e & ->)].
      * auto.
      * exfalso. eapply Hc. reflexivity.
  - intros [(t1 & t2 & e & c & -> & H1 & H2 & ->) | [H ->]].
    + exists (t1 +++ t2), c, []. rewrite app_nil_r. repeat split.
      apply executes_tryCatch. left. exists t1, t2, e. auto.
    + exists t, Normal, []. rewrite app_nil_r. repeat split.
      apply executes_tryCatch. right. split; [exact H | discriminate].
Qed.



(** C10. The removal of the backup [_original] is inside the [try] block:
    in an execution where the write succeeds and the removal fails, the
    next call is the copy of the media file into the error directory; and
    there are such executions, for every file that supports embedded
    metadata and every valid date, in which the media file and the
    companion JSON, if there is one, are copied and the function returns
    normally. *)
Theorem cleanup_failure_triggers_quarantine
    (fileInfo : MediaFileInfo) (timeTaken errorDir isoString : string) (e : error) :
  doesFileSupportExif (outputFilePath fileInfo) = true ->
  toISOString timeTaken = Ok isoString ->
  let written := Written (outputFilePath fileInfo) (tagsOf fileInfo isoString)
                         (Ok tt) in
  let unlinkFailed := Unlinked (outputFilePath fileInfo ++ "_original") (Err e) in
  let mediaCopied := Copied (outputFilePath fileInfo)
                            (resolve path errorDir (mediaFileName fileInfo)) (Ok tt) in
  (forall t r,
      executes (update fileInfo timeTaken errorDir) (written :: unlinkFailed :: t) r ->
      exists a t', t = Copied (outputFilePath fileInfo)
                         (resolve path errorDir (mediaFileName fileInfo)) a :: t')
  /\ executes (update fileInfo timeTaken errorDir)
       (written :: unlinkFailed :: mediaCopied
        :: match hasCompanionJson fileInfo, jsonFilePath fileInfo, jsonFileName fileInfo with
           | true, Some jp, Some jn => [Copied jp (resolve path errorDir jn) (Ok tt)]
           | _, _, _ => []
           end)
       (Ok tt).
Proof.
  intros Hs Hiso written unlinkFailed mediaCopied. split.
  - intros t r H. apply (executes_update _ _ _ _ _ Hs) in H.
    destruct H as [(t1 & t2 & e' & c & Ht & H1 & H2 & ->) | [H _]].
    + apply executes_writeTimestamp in H1. apply executes_copyToErrorDir in H2.
      destruct H1 as [(e0 & _ & -> & _)
                     | (iso & _ & [(e1 & -> & _) | [(e1 & -> & _) | [_ H1]]])];
        try discriminate.
      * simpl in Ht.
        destruct H2 as [(e1 & -> & _) | [(_ & -> & _) | (_ & jp & jn & a2 & _ & _ & -> & _)]];
          discriminate.
      * injection Ht as _ _ <-.
        destruct H2 as [(e2 & -> & _) | [(_ & -> & _) | (_ & jp & jn & a2 & _ & _ & -> & _)]];
          eauto.
    + apply executes_writeTimestamp in H.
      destruct H as [(e0 & _ & H & _) | (iso & _ & [(e1 & _ & H) | [(e1 & _ & H) | [H _]]])];
        discriminate.
  - apply (executes_update _ _ _ _ _ Hs). left.
    exists [written; unlinkFailed]. eexists. exists e.
    exists Normal. split; [reflexivity|]. split; [| split; [| reflexivity]].
    + apply executes_writeTimestamp. right. exists isoString. split; [exact Hiso|].
      right. left. exists e. auto.
    + apply executes_copyToErrorDir.
      destruct (hasCompanionJson fileInfo) eqn:Hj.
      * destruct (hasCompanionJson_Some _ Hj) as (jp & jn & Hjp & Hjn).
        rewrite Hjp, Hjn. right. right. split; [reflexivity|].
        exists jp, jn, (Ok tt). auto.
      * right. left. auto.
Qed.

(** Every execution of the verifier in which the embedded metadata could
    not be read ends with [true]. *)
Lemma verifier_read_failure (mediaFile : MediaFileInfo) t r f e :
  executes (verify mediaFile) t r ->
  In (Read f (Err e)) t ->
  r = Ok true.
Proof.
  unfold doesExifDateMatchPhotoTakenTime, doesExifDateMatchPhotoTakenTimeBody.
  destruct (doesFileSupportExif (outputFilePath mediaFile)); simpl.
  - intros (a1 & t1 & -> & H) Hin. destruct a1 as [[photoTakenTime |] | e1]; simpl in H.
    + destruct H as (a2 & t2 & -> & H). destruct a2 as [[exifDate |] | e2]; simpl in H.
      * destruct (exifDateToISOString exifDate); simpl in H; destruct H as [-> ->];
          simpl in Hin; destruct Hin as [Hin | [Hin | []]]; discriminate.
      * destruct H as [-> ->]. simpl in Hin. destruct Hin as [Hin | [Hin | []]]; discriminate.
      * destruct H as [-> ->]. reflexivity.
    + destruct H as [-> ->]. simpl in Hin. destruct Hin as [Hin | []]. discriminate.
    + destruct H as [-> ->]. simpl in Hin. destruct Hin as [Hin | []]. discriminate.
  - intros [-> _] [].
Qed.

(** C9. The verifier returns [true] in every execution in which the read of
    the embedded metadata fails; for a file that does not support embedded
    metadata it returns [true] and the writer returns, both without any
    call and without an error. *)
Theorem verifier_and_writer_default_conservatively :
  (forall (mediaFile : MediaFileInfo) t r e,
      executes (verify mediaFile) t r ->
      In (Read (outputFilePath mediaFile) (Err e)) t ->
      r = Ok true)
  /\ (forall mediaFile : MediaFileInfo,
      doesFileSupportExif (outputFilePath mediaFile) = false ->
      verify mediaFile = Ret (Ok true))
  /\ (forall (fileInfo : MediaFileInfo) (timeTaken errorDir : string),
      doesFileSupportExif (outputFilePath fileInfo) = false ->
      update fileInfo timeTaken errorDir = Ret (Ok tt)).
Proof.
  split; [| split].
  - intros mediaFile t r e H Hin. exact (verifier_read_failure _ _ _ _ _ H Hin).
  - intros mediaFile Hs.
    unfold doesExifDateMatchPhotoTakenTime, doesExifDateMatchPhotoTakenTimeBody.
    rewrite Hs. reflexivity.
  - intros fileInfo timeTaken errorDir Hs.
    unfold updateExifMetadata, updateExifMetadataBody. rewrite Hs. reflexivity.
Qed.

End ExifFacts.

(* ===================================================================== *)
(** * The theorems at concrete inputs *)
(* ===================================================================== *)

Lemma returned_path_passed_existence_check_witness :
  exists t',
    [ Existence "/d/foo(1).json" false;
      Existence "/d/foo(1).jpg.json" false;
      Existence "/d/foo(1).jpg.supplemental-metadata.json" false;
      Existence "/d/foo.jpg(1).json" true ]
    = t' +++ [Existence "/d/foo.jpg(1).json" true].
Proof.
  apply (returned_path_passed_existence_check (Posix.pathModule "/") "/d/foo(1).jpg").
  apply (executes_by_run
           (fsAnswer (directory "/d" ["foo(1).jpg"; "foo.jpg(1).json"])));
    vm_compute; reflexivity.
Defined.




Lemma cleanup_failure_triggers_quarantine_witness :
  executes (sampleUpdate sampleFileInfo "2020-01-01T00:00:00.000Z" "/errors")
    [ Written "/out/a.jpg" [("DateTimeOriginal", "2020-01-01 00:00:00.000+00:00")] (Ok tt);
      Unlinked "/out/a.jpg_original" (Err (Error "ENOENT"));
      Copied "/out/a.jpg" "/errors/a.jpg" (Ok tt);
      Copied "/in/a.jpg.json" "/errors/a.jpg.json" (Ok tt) ]
    (Ok tt).
Proof.
  exact (proj2 (cleanup_failure_triggers_quarantine string (Posix.pathModule "/")
                  (fun _ => true) (fun s => Ok s) sampleFileInfo
                  "2020-01-01T00:00:00.000Z" "/errors" "2020-01-01T00:00:00.000Z"
                  (Error "ENOENT") eq_refl eq_refl)).
Defined.

Lemma verifier_and_writer_default_conservatively_witness :
  Ok true = Ok true
  /\ doesExifDateMatchPhotoTakenTime (ExifDate := string) (fun _ => false) (fun s => Ok s)
       sampleFileInfo
     = Ret (Ok true)
  /\ updateExifMetadata string (Posix.pathModule "/") (fun _ => false) (fun s => Ok s)
       sampleFileInfo "2020-01-01T00:00:00.000Z" "/errors"
     = Ret (Ok tt).
Proof.
  split; [| split].
  - apply (proj1 (verifier_and_writer_default_conservatively string (Posix.pathModule "/")
                    (fun _ => true) (fun s => Ok s) (fun s => Ok s))
             sampleFileInfo
             [ JsonRead sampleFileInfo (Ok (Some "2020-01-01T00:00:00.000Z"));
               Read "/out/a.jpg" (Err (Error "exiftool failed")) ]
             (Ok true) (Error "exiftool failed")).
    + apply (executes_by_run
               (exifAnswer (sampleWorld (Ok tt) (Ok tt) (Ok tt)
                              (Err (Error "exiftool failed")))));
        vm_compute; reflexivity.
    + simpl. right. left. reflexivity.
  - apply (proj1 (proj2 (verifier_and_writer_default_conservatively string
                           (Posix.pathModule "/") (fun _ => false) (fun s => Ok s)
                           (fun s => Ok s)))).
    reflexivity.
  - apply (proj2 (proj2 (verifier_and_writer_default_conservatively string
                           (Posix.pathModule "/") (fun _ => false) (fun s => Ok s)
                           (fun s => Ok s)))).
    reflexivity.
Defined.

(* ===================================================================== *)
(** * Further properties of the resolver *)
(* ===================================================================== *)

Section ResolverInvariants.

Variable path : PathModule.


Lemma endsWith_supplemental_json (file : string) :
  Js.endsWith file ".supplemental-metadata.json" = true -> Js.endsWith file ".json" = true.
Proof.
  rewrite !endsWith_iff. intros (pre & ->). exists (pre ++ ".supplemental-metadata").
  rewrite append_assoc. reflexivity.
Qed.

Section ReturnsOnly.

Variable Q : string -> Prop.








End ReturnsOnly.








Lemma listings_app (t1 t2 : list fsEvent) :
  listings (t1 +++ t2) = listings t1 +++ listings t2.
Proof.
  induction t1 as [| ev t1 IH]; simpl; [reflexivity|].
  destruct ev; simpl; congruence.
Qed.

Section ListsWithin.

Variable dir : string.

Lemma lists_Ret c : listsWithin dir 0 (Ret c).
Proof. intros t c' [-> _]. simpl. split; [intros d [] | lia]. Qed.

Lemma lists_weaken n m s : n <= m -> listsWithin dir n s -> listsWithin dir m s.
Proof. intros Hnm Hs t c H. destruct (Hs _ _ H). split; [assumption | lia]. Qed.

Lemma lists_returnIfExists p : listsWithin dir 0 (returnIfExists p).
Proof.
  intros t c (b & t' & -> & H). destruct b; destruct H as [-> _];
    simpl; (split; [intros d [] | lia]).
Qed.

Lemma lists_seq n1 n2 s1 s2 :
  listsWithin dir n1 s1 -> listsWithin dir n2 s2 -> listsWithin dir (n1 + n2) (s1 ;;; s2).
Proof.
  intros H1 H2 t c H. apply executes_seq in H.
  destruct H as [(t1 & t2 & -> & Hs1 & Hs2) | [Hs1 _]].
  - destruct (H1 _ _ Hs1) as [Ha Hb], (H2 _ _ Hs2) as [Hc Hd].
    rewrite listings_app, length_app. split; [| lia].
    intros d Hd'. apply in_app_or in Hd'. destruct Hd'; auto.
  - destruct (H1 _ _ Hs1). split; [assumption | lia].
Qed.

Lemma lists_when n b s : listsWithin dir n s -> listsWithin dir n (when b s).
Proof.
  destruct b; simpl; [auto|]. intros _. apply (lists_weaken 0); [lia | apply lists_Ret].
Qed.

Lemma lists_forOf {A : Type} (l : list A) (body : A -> stmt fsE (option string)) :
  (forall x, listsWithin dir 0 (body x)) -> listsWithin dir 0 (forOf l body).
Proof.
  intros Hbody. induction l as [| x l IH]; simpl.
  - apply lists_Ret.
  - apply (lists_seq 0 0); auto.
Qed.

Lemma lists_existsSync n p (k : bool -> stmt fsE (option string)) :
  (forall b, listsWithin dir n (k b)) -> listsWithin dir n (b <- existsSync p ;; k b).
Proof. intros Hk t c (b & t' & -> & H). exact (Hk b _ _ H). Qed.

Lemma lists_scan (body : string -> stmt fsE (option string)) :
  (forall file, listsWithin dir 0 (body file)) ->
  listsWithin dir 1 (tryCatch (const filesInDirectory := readdirSync dir ;;
                               forOf filesInDirectory body)
                              (fun _ => Ret Normal)).
Proof.
  intros Hbody t c H. apply executes_scan in H.
  destruct H as [(e & -> & _) | (files & t' & -> & H)].
  - simpl. split; [intros d [<- | []]; reflexivity | lia].
  - apply executes_tryCatch in H.
    assert (Hl : listings t' = []).
    { destruct H as [(t1 & t2 & e & -> & H1 & [-> _]) | [H _]].
      - rewrite app_nil_r. destruct (lists_forOf files body Hbody _ _ H1) as [_ Hn].
        destruct (listings t1); [reflexivity | simpl in Hn; lia].
      - destruct (lists_forOf files body Hbody _ _ H) as [_ Hn].
        destruct (listings t'); [reflexivity | simpl in Hn; lia]. }
    simpl. rewrite Hl. simpl. split; [intros d [<- | []]; reflexivity | lia].
Qed.

Lemma lists_videoFallback stem ext : listsWithin dir 0 (videoFallback path dir stem ext).
Proof.
  apply lists_when, lists_forOf. intros imgExt. apply (lists_seq 0 0).
  - apply lists_existsSync. intros b. apply lists_when. apply (lists_seq 0 0).
    + destruct (Regex.exec reCounter stem); [apply lists_returnIfExists | apply lists_Ret].
    + apply lists_forOf. intros. apply lists_returnIfExists.
  - unfold baseImage. destruct (Regex.exec reBaseName stem); [| apply lists_Ret].
    apply lists_existsSync. intros b. apply lists_when. apply (lists_seq 0 0).
    + apply lists_returnIfExists.
    + apply lists_forOf. intros. apply lists_returnIfExists.
Qed.

End ListsWithin.

(** X2. In every execution the resolver lists no directory but the one of
    the media file, and lists it at most three times (once for each scan
    that is reached). *)
Theorem resolver_lists_only_the_media_directory
    (mediaFilePath : string) (t : list fsEvent) (c : completion (option string)) :
  executes (getCompanionJsonPathForMediaFile path mediaFilePath) t c ->
  (forall d, In d (listings t) -> d = dirname path mediaFilePath)
  /\ List.length (listings t) <= 3.
Proof.
  unfold getCompanionJsonPathForMediaFile.
  set (dir := dirname path mediaFilePath).
  set (ext := extname path mediaFilePath).
  set (stem := stripEdited (basename path mediaFilePath ext)).
  apply (lists_seq dir 0 3).
  { apply lists_forOf. intros. apply lists_returnIfExists. }
  apply (lists_seq dir 1 2).
  { apply lists_scan. intros. apply lists_when, lists_returnIfExists. }
  apply (lists_seq dir 1 1).
  { apply lists_scan. intros. apply lists_when, lists_when, lists_returnIfExists. }
  apply (lists_seq dir 1 0).
  { apply lists_scan. intros. apply lists_when, lists_when, lists_returnIfExists. }
  apply (lists_seq dir 0 0).
  { apply lists_videoFallback. }
  apply lists_Ret.
Qed.

End ResolverInvariants.

(* ===================================================================== *)
(** * Further properties of the candidate names *)
(* ===================================================================== *)

Section CandidateNames.

(** X3. The normaliser removes nothing but one final [-edited]: a stem
    either has no such suffix, in any case of the letters, and is left as
    it is, or it is [pre ++ suffix] for such a suffix and becomes [pre]. *)
Theorem normaliser_removes_at_most_one_suffix (stem : string) :
  ((forall pre suffix, stem = pre ++ suffix -> Js.toLowerCase suffix <> "-edited")
   /\ stripEdited stem = stem)
  \/ (exists pre suffix,
        stem = pre ++ suffix /\ Js.toLowerCase suffix = "-edited"
        /\ stripEdited stem = pre).
Proof.
  pose proof (search_spec reEdited stem 0) as Hs.
  destruct (search reEdited stem 0) as [r |] eqn:Hr.
  - right. destruct Hs as (pre & x & -> & _ & Hx & _).
    rewrite matchAt_reEdited in Hx.
    destruct (String.eqb (Js.toLowerCase x) "-edited") eqn:He; [| discriminate].
    apply String.eqb_eq in He. exists pre, x. split; [reflexivity|].
    split; [exact He | apply stripEdited_suffix; exact He].
  - left.
    assert (Hno : forall pre suffix,
               stem = pre ++ suffix -> Js.toLowerCase suffix <> "-edited").
    { intros pre suffix Heq Hsuf. specialize (Hs pre suffix Heq).
      rewrite matchAt_reEdited, Hsuf in Hs. discriminate. }
    split; [exact Hno | apply stripEdited_other; exact Hno].
Qed.

Lemma sliceDropLast_append (base tail : string) :
  Js.sliceDropLast (base ++ tail) (String.length tail) = base.
Proof.
  unfold Js.sliceDropLast. rewrite length_append.
  replace (String.length base + String.length tail - String.length tail)
    with (String.length base) by lia.
  apply substring_prefix.
Qed.

Lemma sliceDropLast_last (base : string) (c : ascii) :
  Js.sliceDropLast (base ++ String c "") 1 = base.
Proof. exact (sliceDropLast_append base (String c "")). Qed.

Lemma last_unit_inj (a b : string) (c d : ascii) :
  a ++ String c "" = b ++ String d "" -> a = b /\ c = d.
Proof.
  intros H.
  assert (Hlen : String.length a = String.length b).
  { apply (f_equal String.length) in H. rewrite !length_append in H. simpl in H. lia. }
  assert (Hc : String c "" = String d "").
  { rewrite <- (substring_suffix a (String c "")), H, Hlen.
    apply (substring_suffix b (String d "")). }
  injection Hc as ->. split; [| reflexivity].
  apply (append_inj_r a b (String d "")). exact H.
Qed.

(** X4. The names without the extra trailing character: a stem
    [base ++ "_"], [base ++ "_n"] or [base ++ "_n-"] gives the three direct
    names of the stem without its last code unit (so [_n] loses only
    the [n]); any other stem gives none. *)
Theorem trailing_character_candidates (stem ext : string) :
  (forall base c,
      stem = base ++ String c "" ->
      (c = "_"%char \/ (exists b, base = b ++ "_" /\ c = "n"%char)
       \/ (exists b, base = b ++ "_n" /\ c = "-"%char)) ->
      trailingCharCandidates stem ext
      = [ base ++ ".json"; base ++ ext ++ ".json";
          base ++ ext ++ ".supplemental-metadata.json" ])
  /\ ((forall b, stem <> b ++ "_") -> (forall b, stem <> b ++ "_n") ->
      (forall b, stem <> b ++ "_n-") ->
      trailingCharCandidates stem ext = []).
Proof.
  split.
  - intros base c -> Hc. unfold trailingCharCandidates.
    assert (Hends : Js.endsWith (base ++ String c "") "_n-"
                    || Js.endsWith (base ++ String c "") "_n"
                    || Js.endsWith (base ++ String c "") "_" = true).
    { destruct Hc as [-> | [(b & -> & ->) | (b & -> & ->)]].
      - apply orb_true_iff. right. apply endsWith_iff. exists base. reflexivity.
      - apply orb_true_iff. left. apply orb_true_iff. right.
        apply endsWith_iff. exists b. rewrite append_assoc. reflexivity.
      - apply orb_true_iff. left. apply orb_true_iff. left.
        apply endsWith_iff. exists b. rewrite append_assoc. reflexivity. }
    rewrite Hends.
    rewrite sliceDropLast_last. reflexivity.
  - intros H1 H2 H3. unfold trailingCharCandidates.
    destruct (Js.endsWith stem "_n-") eqn:E3.
    { apply endsWith_iff in E3. destruct E3 as (b & ->). destruct (H3 b eq_refl). }
    destruct (Js.endsWith stem "_n") eqn:E2.
    { apply endsWith_iff in E2. destruct E2 as (b & ->). destruct (H2 b eq_refl). }
    destruct (Js.endsWith stem "_") eqn:E1.
    { apply endsWith_iff in E1. destruct E1 as (b & ->). destruct (H1 b eq_refl). }
    reflexivity.
Qed.

Lemma trailing_character_candidates_witness :
  trailingCharCandidates ("IMG_1234" ++ "_n") ".jpg"
  = [ "IMG_1234_" ++ ".json"; "IMG_1234_" ++ ".jpg" ++ ".json";
      "IMG_1234_" ++ ".jpg" ++ ".supplemental-metadata.json" ]
  /\ trailingCharCandidates "IMG_1234" ".jpg" = [].
Proof.
  split.
  - apply (proj1 (trailing_character_candidates ("IMG_1234" ++ "_n") ".jpg")
             "IMG_1234_" "n"%char).
    + reflexivity.
    + right. left. exists "IMG_1234". split; reflexivity.
  - apply (proj2 (trailing_character_candidates "IMG_1234" ".jpg")); intros b H.
    + assert (E : Js.endsWith "IMG_1234" "_" = true)
        by (apply endsWith_iff; exists b; exact H).
      discriminate E.
    + assert (E : Js.endsWith "IMG_1234" "_n" = true)
        by (apply endsWith_iff; exists b; exact H).
      discriminate E.
    + assert (E : Js.endsWith "IMG_1234" "_n-" = true)
        by (apply endsWith_iff; exists b; exact H).
      discriminate E.
Defined.

(** X5. The names with the counter behind the extension: a stem without a
    final counter gives none; a stem [pre(n)] whose part [pre] holds no line
    terminator gives [pre ++ ext ++ (n).json] and
    [pre ++ ext ++ .supplemental-metadata(n).json], in this order. *)
Theorem counter_relocation_candidates (stem ext : string) :
  (~ endsWithCounter stem -> counterCandidates stem ext = [])
  /\ (forall pre ds,
        stem = pre ++ "(" ++ ds ++ ")" ->
        singleLine pre = true -> ds <> "" -> allDigits ds = true ->
        counterCandidates stem ext
        = [ pre ++ ext ++ "(" ++ ds ++ ")" ++ ".json";
            pre ++ ext ++ ".supplemental-metadata" ++ "(" ++ ds ++ ")" ++ ".json" ]).
Proof.
  split.
  - apply counterCandidates_none.
  - intros pre ds -> Hpre Hne Hds. apply counterCandidates_single_line; assumption.
Qed.

Lemma counter_relocation_candidates_witness :
  counterCandidates "foo" ".jpg" = []
  /\ counterCandidates ("foo" ++ "(" ++ "12" ++ ")") ".jpg"
     = [ "foo" ++ ".jpg" ++ "(" ++ "12" ++ ")" ++ ".json";
         "foo" ++ ".jpg" ++ ".supplemental-metadata" ++ "(" ++ "12" ++ ")" ++ ".json" ].
Proof.
  split.
  - apply (proj1 (counter_relocation_candidates "foo" ".jpg")).
    intros H. apply test_reCounter in H. discriminate H.
  - apply (proj2 (counter_relocation_candidates ("foo" ++ "(" ++ "12" ++ ")") ".jpg")
             "foo" "12"); [reflexivity | reflexivity | discriminate | reflexivity].
Defined.

(** What the first and the third scan accept, without indices. *)
Lemma supplementalScanAccepts_iff (stem file : string) :
  supplementalScanAccepts stem file = true <->
  (exists rest, file = stem ++ rest)
  /\ exists pre, file = pre ++ ".supplemental-metadata.json".
Proof.
  unfold supplementalScanAccepts.
  rewrite andb_true_iff, startsWith_iff, endsWith_iff. reflexivity.
Qed.

Lemma truncationScanAccepts_iff (stem file : string) :
  truncationScanAccepts stem file = true <->
  exists base rest, file = base ++ ".json" /\ stem = base ++ rest.
Proof.
  unfold truncationScanAccepts. rewrite andb_true_iff, endsWith_iff. split.
  - intros [(base & ->) Hpre]. change 5 with (String.length ".json") in Hpre.
    rewrite sliceDropLast_append in Hpre. apply startsWith_iff in Hpre.
    destruct Hpre as (rest & ->). exists base, rest. auto.
  - intros (base & rest & -> & ->). split; [exists base; reflexivity|].
    change 5 with (String.length ".json"). rewrite sliceDropLast_append.
    apply startsWith_iff. exists rest. reflexivity.
Qed.

(** An entry that ends in [.supplemental-metadata.json] has no counter
    before [.json]. *)
Lemma supplemental_has_no_counter (pre : string) :
  Regex.test reCounterJson (pre ++ ".supplemental-metadata.json") = false.
Proof.
  destruct (Regex.test reCounterJson (pre ++ ".supplemental-metadata.json")) eqn:Ht;
    [| reflexivity].
  exfalso. apply test_reCounterJson in Ht.
  destruct Ht as (base & Heq & p & c & -> & ds & -> & _ & _).
  change (pre ++ ".supplemental-metadata.json")
    with (pre ++ ".supplemental-metadat" ++ String "a" ".json") in Heq.
  change ((p ++ "(" ++ ds ++ ")") ++ ".json")
    with ((p ++ "(" ++ ds ++ String ")" "") ++ ".json") in Heq.
  replace (pre ++ ".supplemental-metadat" ++ String "a" ".json")
    with (((pre ++ ".supplemental-metadat") ++ String "a" "") ++ ".json") in Heq
    by (rewrite !append_assoc; reflexivity).
  apply append_inj_r in Heq.
  replace (p ++ "(" ++ ds ++ String ")" "") with ((p ++ "(" ++ ds) ++ String ")" "")
    in Heq by (rewrite !append_assoc; reflexivity).
  apply last_unit_inj in Heq. destruct Heq as [_ Heq]. discriminate Heq.
Qed.

(** X6. An entry that the first scan accepts for a stem is accepted by the
    second scan exactly when the stem does not end with a counter: for a
    stem with a counter the first scan is the only one of the two that
    takes a [.supplemental-metadata.json] entry. *)
Theorem supplemental_entries_and_counter_parity (stem file : string) :
  supplementalScanAccepts stem file = true ->
  (jsonScanAccepts stem file = true <-> ~ endsWithCounter stem).
Proof.
  intros Hacc. pose proof Hacc as Hacc'. unfold supplementalScanAccepts in Hacc'.
  apply andb_true_iff in Hacc'. destruct Hacc' as [Hstart Hend].
  pose proof (endsWith_supplemental_json file Hend) as Hjson.
  apply endsWith_iff in Hend. destruct Hend as (pre & ->).
  unfold jsonScanAccepts. rewrite Hstart, Hjson, supplemental_has_no_counter.
  rewrite <- test_reCounter. simpl.
  destruct (Regex.test reCounter stem); simpl.
  - split; [discriminate | intros H; exfalso; apply H; reflexivity].
  - split; [intros _ H; discriminate H | reflexivity].
Qed.

Lemma supplemental_entries_and_counter_parity_witness :
  (jsonScanAccepts "IMG(1)" "IMG(1).jpg.supplemental-metadata.json" = true
   <-> ~ endsWithCounter "IMG(1)")
  /\ (jsonScanAccepts "IMG" "IMG.jpg.supplemental-metadata.json" = true
      <-> ~ endsWithCounter "IMG").
Proof.
  split.
  - apply (supplemental_entries_and_counter_parity "IMG(1)"
             "IMG(1).jpg.supplemental-metadata.json"). reflexivity.
  - apply (supplemental_entries_and_counter_parity "IMG"
             "IMG.jpg.supplemental-metadata.json"). reflexivity.
Defined.

End CandidateNames.

(* ===================================================================== *)
(** * Further properties of the three scans *)
(* ===================================================================== *)

Section Scans.

Variable path : PathModule.

(** A scan returns the path of a listed entry that its loop body takes. *)
Lemma scan_returns_kept dir (keep : string -> bool)
    (body : string -> stmt fsE (option string)) t p :
  (forall file t' q, executes (body file) t' (Return (Some q)) ->
                     keep file = true /\ q = resolve path dir file) ->
  executes (tryCatch (const filesInDirectory := readdirSync dir ;;
                      forOf filesInDirectory body)
                     (fun _ => Ret Normal)) t (Return (Some p)) ->
  exists files file t',
    t = Listing dir (Ok files) :: t' /\ In file files
    /\ keep file = true /\ p = resolve path dir file.
Proof.
  intros Hbody H. apply executes_scan in H.
  destruct H as [(e & _ & H) | (files & t' & -> & H)]; [discriminate|].
  apply executes_tryCatch in H.
  destruct H as [(t1 & t2 & e & _ & _ & [_ H]) | [H _]]; [discriminate|].
  apply executes_forOf_Return in H. destruct H as (file & t1 & t2 & Hin & -> & H).
  destruct (Hbody _ _ _ H) as [Hk ->].
  exists files, file, (t1 +++ t2). auto.
Qed.

Lemma supplementalScan_returns_accepted dir stem t p :
  executes (supplementalScan path dir stem) t (Return (Some p)) ->
  exists files file t',
    t = Listing dir (Ok files) :: t' /\ In file files
    /\ supplementalScanAccepts stem file = true /\ p = resolve path dir file.
Proof.
  apply scan_returns_kept. intros file t' q H.
  apply executes_when_Return in H. destruct H as [Hc H].
  apply executes_returnIfExists_Return in H. destruct H as [-> _]. auto.
Qed.

Lemma truncationScan_returns_accepted dir stem t p :
  executes (truncationScan path dir stem) t (Return (Some p)) ->
  exists files file t',
    t = Listing dir (Ok files) :: t' /\ In file files
    /\ truncationScanAccepts stem file = true /\ p = resolve path dir file.
Proof.
  apply scan_returns_kept. intros file t' q H.
  apply executes_when_Return in H. destruct H as [H1 H].
  apply executes_when_Return in H. destruct H as [H2 H].
  apply executes_returnIfExists_Return in H. destruct H as [-> _].
  unfold truncationScanAccepts. rewrite H1, H2. auto.
Qed.

Lemma find_first_match {A : Type} (f : A -> bool) (l1 l2 : list A) (x : A) :
  (forall y, In y l1 -> f y = false) -> f x = true ->
  find f (l1 +++ x :: l2) = Some x.
Proof.
  intros Hl1 Hx. induction l1 as [| y l1 IH]; simpl.
  - rewrite Hx. reflexivity.
  - rewrite (Hl1 y (or_introl eq_refl)). apply IH. intros z Hz. apply Hl1. right. exact Hz.
Qed.

Lemma find_some_match {A : Type} (f : A -> bool) (l : list A) (x : A) :
  In x l -> f x = true -> exists y, find f l = Some y.
Proof.
  intros Hin Hx. induction l as [| z l IH]; [destruct Hin|]. simpl.
  destruct (f z) eqn:Hz; [eauto|].
  destruct Hin as [-> | Hin]; [congruence | auto].
Qed.

(** The first listed entry that a scan accepts and that exists is the one
    it returns. *)
Lemma firstExisting_first_listed (fs : FileSystem) dir (keep : string -> bool)
    (before after : list string) (file : string) :
  (forall f, In f before ->
             keep f = false \/ fsExists fs (resolve path dir f) = false) ->
  keep file = true -> fsExists fs (resolve path dir file) = true ->
  firstExisting fs (inDirectory path dir (filter keep (before +++ file :: after)))
  = Return (Some (resolve path dir file)).
Proof.
  intros Hbefore Hk He. unfold firstExisting, inDirectory.
  rewrite filter_app. simpl. rewrite Hk. rewrite map_app. simpl.
  rewrite (find_first_match (fsExists fs) _ _ (resolve path dir file)); [reflexivity | | exact He].
  intros y Hy. apply in_map_iff in Hy. destruct Hy as (f & <- & Hf).
  apply filter_In in Hf. destruct Hf as [Hin Hkf].
  destruct (Hbefore f Hin) as [H | H]; [congruence | exact H].
Qed.

(** X7. In a file system that does not change, each of the three scans
    returns the first entry, in the order of the listing, that it accepts
    and that exists: the entries listed before it are skipped only because
    they are not accepted or do not exist. *)
Theorem scans_return_first_listed_match
    (fs : FileSystem) (dir stem : string) (before after : list string) (file : string) :
  fsReaddir fs dir = Ok (before +++ file :: after) ->
  fsExists fs (resolve path dir file) = true ->
  (supplementalScanAccepts stem file = true ->
   (forall f, In f before -> supplementalScanAccepts stem f = false
                             \/ fsExists fs (resolve path dir f) = false) ->
   run (fsAnswer fs) (supplementalScan path dir stem)
   = Return (Some (resolve path dir file)))
  /\ (jsonScanAccepts stem file = true ->
      (forall f, In f before -> jsonScanAccepts stem f = false
                                \/ fsExists fs (resolve path dir f) = false) ->
      run (fsAnswer fs) (jsonScan path dir stem)
      = Return (Some (resolve path dir file)))
  /\ (truncationScanAccepts stem file = true ->
      (forall f, In f before -> truncationScanAccepts stem f = false
                                \/ fsExists fs (resolve path dir f) = false) ->
      run (fsAnswer fs) (truncationScan path dir stem)
      = Return (Some (resolve path dir file))).
Proof.
  intros Hlist He. split; [| split]; intros Hk Hbefore.
  - rewrite run_supplementalScan. unfold priority3, listing. rewrite Hlist.
    exact (firstExisting_first_listed fs dir (supplementalScanAccepts stem)
             before after file Hbefore Hk He).
  - rewrite run_jsonScan. unfold priority4, listing. rewrite Hlist.
    exact (firstExisting_first_listed fs dir (jsonScanAccepts stem)
             before after file Hbefore Hk He).
  - rewrite run_truncationScan. unfold priority5, listing. rewrite Hlist.
    exact (firstExisting_first_listed fs dir (truncationScanAccepts stem)
             before after file Hbefore Hk He).
Qed.

(** X8. The first scan returns only the path of a listed entry that begins
    with the stem and ends in [.supplemental-metadata.json]; what lies
    between the two is not looked at, so the entry may carry another
    extension than the media file, or a longer name. *)
Theorem supplemental_scan_returns_prefixed_entry
    (dir stem p : string) (t : list fsEvent) :
  executes (supplementalScan path dir stem) t (Return (Some p)) ->
  exists files middle t',
    t = Listing dir (Ok files) :: t'
    /\ In (stem ++ middle) files
    /\ p = resolve path dir (stem ++ middle)
    /\ exists pre, stem ++ middle = pre ++ ".supplemental-metadata.json".
Proof.
  intros H. apply supplementalScan_returns_accepted in H.
  destruct H as (files & file & t' & -> & Hin & Hacc & ->).
  apply supplementalScanAccepts_iff in Hacc.
  destruct Hacc as [(middle & ->) Hend].
  exists files, middle, t'. auto.
Qed.

(** X9. The third scan returns only the path of a listed entry
    [base ++ ".json"] whose [base] is a prefix of the stem.  The empty
    prefix counts: where the directory lists an entry [.json] that exists,
    the scan returns a path for every stem. *)
Theorem truncation_scan_returns_prefix_of_stem :
  (forall (dir stem p : string) (t : list fsEvent),
      executes (truncationScan path dir stem) t (Return (Some p)) ->
      exists files base rest t',
        t = Listing dir (Ok files) :: t'
        /\ In (base ++ ".json") files
        /\ p = resolve path dir (base ++ ".json")
        /\ stem = base ++ rest)
  /\ (forall (fs : FileSystem) (dir stem : string) (files : list string),
      fsReaddir fs dir = Ok files ->
      In ".json" files ->
      fsExists fs (resolve path dir ".json") = true ->
      exists p, run (fsAnswer fs) (truncationScan path dir stem) = Return (Some p)).
Proof.
  split.
  - intros dir stem p t H. apply truncationScan_returns_accepted in H.
    destruct H as (files & file & t' & -> & Hin & Hacc & ->).
    apply truncationScanAccepts_iff in Hacc. destruct Hacc as (base & rest & -> & ->).
    exists files, base, rest, t'. auto.
  - intros fs dir stem files Hlist Hin He.
    rewrite run_truncationScan. unfold priority5, listing, firstExisting. rewrite Hlist.
    destruct (find_some_match (fsExists fs)
                (inDirectory path dir (filter (truncationScanAccepts stem) files))
                (resolve path dir ".json")) as (y & Hy).
    + unfold inDirectory. apply in_map. apply filter_In. split; [exact Hin|].
      apply truncationScanAccepts_iff. exists "", stem. auto.
    + exact He.
    + exists y. unfold truncationScanAccepts in Hy. rewrite Hy. reflexivity.
Qed.

End Scans.

(* ===================================================================== *)
(** * Further properties of the writer and of the verifier *)
(* ===================================================================== *)

Section DateFormat.

Lemma lacks_append (c : ascii) (a b : string) :
  lacks c (a ++ b) = lacks c a && lacks c b.
Proof.
  induction a as [| d a IH]; simpl; [reflexivity|].
  rewrite IH, andb_assoc. reflexivity.
Qed.

(** [replace] with a pattern of one code unit rewrites its first
    occurrence. *)
Lemma replace_first_unit (c : ascii) (rep a b : string) :
  lacks c a = true ->
  Js.replace (String c "") rep (a ++ String c b) = a ++ rep ++ b.
Proof.
  intros Ha. induction a as [| d a IH].
  - simpl. destruct (ascii_dec c c) as [_ | Hn]; [| contradiction].
    destruct b; simpl; rewrite ?Nat.sub_0_r, ?substring_all; reflexivity.
  - simpl in Ha. apply andb_true_iff in Ha. destruct Ha as [Hd Ha].
    simpl. destruct (ascii_dec c d) as [-> | Hn].
    + rewrite Ascii.eqb_refl in Hd. discriminate.
    + rewrite (IH Ha). reflexivity.
Qed.

(** X10. The date given to exiftool: for an ISO instant [date T time Z] in
    which [T] and [Z] occur only as the two separators, the writer sends
    [date], a space, [time] and the offset [+00:00]. *)
Theorem utc_format_of_iso_instant (date time : string) :
  lacks "T" date = true -> lacks "Z" date = true -> lacks "Z" time = true ->
  utcFormatted (date ++ "T" ++ time ++ "Z") = date ++ " " ++ time ++ "+00:00".
Proof.
  intros HT HZd HZt. unfold utcFormatted.
  change (date ++ "T" ++ time ++ "Z") with (date ++ String "T" (time ++ "Z")).
  rewrite (replace_first_unit "T" " " date (time ++ "Z") HT).
  replace (date ++ " " ++ time ++ "Z") with ((date ++ " " ++ time) ++ String "Z" "")
    by (rewrite !append_assoc; reflexivity).
  rewrite (replace_first_unit "Z" "+00:00" (date ++ " " ++ time) "").
  - rewrite append_empty_r, !append_assoc. reflexivity.
  - rewrite lacks_append, HZd. change (" " ++ time) with (String " " time).
    simpl. exact HZt.
Qed.

Lemma utc_format_of_iso_instant_witness :
  utcFormatted ("2021-03-04" ++ "T" ++ "05:06:07.089" ++ "Z")
  = "2021-03-04" ++ " " ++ "05:06:07.089" ++ "+00:00".
Proof.
  apply (utc_format_of_iso_instant "2021-03-04" "05:06:07.089"); reflexivity.
Defined.

End DateFormat.

Section WriterAndVerifier.

Variable ExifDate : Type.
Variable path : PathModule.
Variable doesFileSupportExif : string -> bool.
Variable toISOString : string -> result string.
Variable exifDateToISOString : ExifDate -> result string.

Local Abbreviation update :=
  (updateExifMetadata ExifDate path doesFileSupportExif toISOString).
Local Abbreviation verify :=
  (doesExifDateMatchPhotoTakenTime doesFileSupportExif exifDateToISOString).
Local Abbreviation tagsOf fileInfo isoString :=
  (metadataTagsFor (Js.toLowerCase (extname path (outputFilePath fileInfo)))
                   (utcFormatted isoString)).

(** The writer for a file that does not support embedded metadata. *)
Lemma update_unsupported (fileInfo : MediaFileInfo) (timeTaken errorDir : string) t r :
  doesFileSupportExif (outputFilePath fileInfo) = false ->
  executes (update fileInfo timeTaken errorDir) t r -> t = [] /\ r = Ok tt.
Proof.
  intros Hs H. unfold updateExifMetadata, updateExifMetadataBody in H.
  rewrite Hs in H. simpl in H. exact H.
Qed.

(** X11. When the write and the removal of the backup both succeed, they
    are the only two calls: the write went to [outputFilePath] with the tags
    of its extension and the formatted date, the removal to
    [outputFilePath_original], nothing is copied into the error directory,
    and the function returns normally. *)
Theorem successful_write_makes_two_calls
    (fileInfo : MediaFileInfo) (timeTaken errorDir f g : string) (tags : Tags)
    (t : list (exifEvent ExifDate)) (r : result unit) :
  executes (update fileInfo timeTaken errorDir)
           (Written f tags (Ok tt) :: Unlinked g (Ok tt) :: t) r ->
  t = [] /\ r = Ok tt
  /\ f = outputFilePath fileInfo
  /\ g = outputFilePath fileInfo ++ "_original"
  /\ exists isoString,
       toISOString timeTaken = Ok isoString /\ tags = tagsOf fileInfo isoString.
Proof.
  intros H. destruct (doesFileSupportExif (outputFilePath fileInfo)) eqn:Hs.
  - apply (executes_update _ _ _ _ _ _ _ _ _ Hs) in H.
    destruct H as [(t1 & t2 & e' & c & Ht & H1 & H2 & ->) | [H ->]].
    + apply executes_writeTimestamp in H1. apply executes_copyToErrorDir in H2.
      destruct H1 as [(e0 & _ & -> & _)
                     | (iso & _ & [(e1 & -> & _) | [(e1 & -> & _) | [_ H1]]])];
        try discriminate.
      simpl in Ht.
      destruct H2 as [(e1 & -> & _) | [(_ & -> & _) | (_ & jp & jn & a2 & _ & _ & -> & _)]];
        discriminate.
    + apply executes_writeTimestamp in H.
      destruct H as [(e0 & _ & H & _) | (iso & Hiso & [(e1 & H & _) | [(e1 & H & _) | [H _]]])];
        try discriminate.
      injection H as -> -> -> ->. repeat split; eauto.
  - apply (update_unsupported _ _ _ _ _ Hs) in H. destruct H as [H _]. discriminate.
Qed.

(** X12. An invalid date never reaches exiftool: when the conversion of
    [timeTaken] throws, for a file that supports embedded metadata, the
    executions of the writer are those of its [catch] block: the file is
    copied into the error directory and nothing is written or removed. *)
Theorem invalid_date_is_quarantined
    (fileInfo : MediaFileInfo) (timeTaken errorDir : string) (e0 : error)
    (t : list (exifEvent ExifDate)) (r : result unit) :
  doesFileSupportExif (outputFilePath fileInfo) = true ->
  toISOString timeTaken = Err e0 ->
  (executes (update fileInfo timeTaken errorDir) t r <->
   exists c, executes (copyToErrorDir ExifDate path fileInfo errorDir) t c
             /\ r = settle tt c).
Proof.
  intros Hs Hiso. rewrite (executes_update _ _ _ _ _ _ _ _ _ Hs). split.
  - intros [(t1 & t2 & e' & c & -> & H1 & H2 & ->) | [H _]].
    + apply executes_writeTimestamp in H1.
      destruct H1 as [(e1 & _ & -> & _) | (iso & Hiso' & _)]; [| congruence].
      exists c. auto.
    + apply executes_writeTimestamp in H.
      destruct H as [(e1 & _ & _ & H) | (iso & Hiso' & _)]; [discriminate | congruence].
  - intros (c & H & ->). left. exists [], t, e0, c. repeat split; auto.
    apply executes_writeTimestamp. left. exists e0. auto.
Qed.


(** The executions of the verifier for a file that supports embedded
    metadata. *)
Lemma executes_verify (mediaFile : MediaFileInfo) t r :
  doesFileSupportExif (outputFilePath mediaFile) = true ->
  executes (verify mediaFile) t r <->
  (exists e, t = [JsonRead mediaFile (Err e)] /\ r = Err e)
  \/ (t = [JsonRead mediaFile (Ok None)] /\ r = Ok true)
  \/ (exists photoTakenTime a,
        t = [JsonRead mediaFile (Ok (Some photoTakenTime));
             Read (outputFilePath mediaFile) a]
        /\ r = Ok match a with
                  | Err _ => true
                  | Ok None => false
                  | Ok (Some exifDate) =>
                      match exifDateToISOString exifDate with
                      | Ok exifDateIso => String.eqb exifDateIso photoTakenTime
                      | Err _ => true
                      end
                  end).
Proof.
  intros Hs. unfold doesExifDateMatchPhotoTakenTime, doesExifDateMatchPhotoTakenTimeBody.
  rewrite Hs. simpl. split.
  - intros (a1 & t1 & -> & H). destruct a1 as [[photoTakenTime |] | e1]; simpl in H.
    + destruct H as (a2 & t2 & -> & H). right. right. exists photoTakenTime, a2.
      destruct a2 as [[exifDate |] | e2]; simpl in H.
      * destruct (exifDateToISOString exifDate); simpl in H; destruct H as [-> ->]; auto.
      * destruct H as [-> ->]. auto.
      * destruct H as [-> ->]. auto.
    + destruct H as [-> ->]. right. left. auto.
    + destruct H as [-> ->]. left. exists e1. auto.
  - intros [(e & -> & ->) | [[-> ->] | (photoTakenTime & a & -> & ->)]].
    + exists (Err e), []. simpl. auto.
    + exists (Ok None), []. simpl. auto.
    + exists (Ok (Some photoTakenTime)). eexists. split; [reflexivity|]. simpl.
      exists a, []. split; [reflexivity|].
      destruct a as [[exifDate |] | e2]; simpl; auto.
      destruct (exifDateToISOString exifDate); simpl; auto.
Qed.

Lemma verify_unsupported (mediaFile : MediaFileInfo) t r :
  doesFileSupportExif (outputFilePath mediaFile) = false ->
  executes (verify mediaFile) t r -> t = [] /\ r = Ok true.
Proof.
  intros Hs H. unfold doesExifDateMatchPhotoTakenTime, doesExifDateMatchPhotoTakenTimeBody in H.
  rewrite Hs in H. simpl in H. exact H.
Qed.

(** X14. The error of [readPhotoTakenTimeFromGoogleJson] is not absorbed:
    the call is outside the [try] block, so the verifier throws that error,
    and exiftool is not called. *)
Theorem verifier_throws_the_json_error
    (mediaFile mf : MediaFileInfo) (e : error)
    (t : list (exifEvent ExifDate)) (r : result bool) :
  executes (verify mediaFile) (JsonRead mf (Err e) :: t) r ->
  t = [] /\ r = Err e /\ mf = mediaFile.
Proof.
  intros H. destruct (doesFileSupportExif (outputFilePath mediaFile)) eqn:Hs.
  - apply (executes_verify _ _ _ Hs) in H.
    destruct H as [(e' & H & ->) | [[H _] | (ptt & a & H & _)]]; try discriminate.
    injection H as -> -> ->. auto.
  - apply (verify_unsupported _ _ _ Hs) in H. destruct H as [H _]. discriminate.
Qed.

(** X15. The verifier answers [false] in two cases only: the embedded
    metadata was read and holds no [DateTimeOriginal], or it holds one
    whose ISO form differs from the time of the JSON.  In both the time of
    the JSON was present and the read succeeded. *)
Theorem verifier_false_means_absent_or_different
    (mediaFile : MediaFileInfo) (t : list (exifEvent ExifDate)) :
  executes (verify mediaFile) t (Ok false) ->
  exists photoTakenTime a,
    t = [JsonRead mediaFile (Ok (Some photoTakenTime));
         Read (outputFilePath mediaFile) (Ok a)]
    /\ (a = None
        \/ exists exifDate exifDateIso,
             a = Some exifDate
             /\ exifDateToISOString exifDate = Ok exifDateIso
             /\ exifDateIso <> photoTakenTime).
Proof.
  intros H. destruct (doesFileSupportExif (outputFilePath mediaFile)) eqn:Hs.
  - apply (executes_verify _ _ _ Hs) in H.
    destruct H as [(e' & _ & H) | [[_ H] | (ptt & a & -> & H)]]; try discriminate.
    destruct a as [[exifDate |] | e2]; try discriminate.
    + exists ptt, (Some exifDate). split; [reflexivity|]. right.
      destruct (exifDateToISOString exifDate) as [iso |] eqn:Hiso; [| discriminate].
      exists exifDate, iso. split; [reflexivity|]. split; [exact Hiso|].
      injection H as H. apply String.eqb_neq. symmetry. exact H.
    + exists ptt, None. auto.
  - apply (verify_unsupported _ _ _ Hs) in H. destruct H as [_ H]. discriminate.
Qed.

(** X16. The verifier answers [true] without reading the embedded metadata
    when the JSON holds no time, and it answers [true] when the date that
    was read has the ISO form of the time of the JSON or has no ISO form
    at all (the conversion throws). *)
Theorem verifier_true_cases (mediaFile : MediaFileInfo) :
  (forall mf t r,
      executes (verify mediaFile) (JsonRead mf (Ok None) :: t) r ->
      t = [] /\ r = Ok true)
  /\ (forall mf f photoTakenTime exifDate t r,
      executes (verify mediaFile)
               (JsonRead mf (Ok (Some photoTakenTime)) :: Read f (Ok (Some exifDate)) :: t) r ->
      exifDateToISOString exifDate = Ok photoTakenTime
      \/ (exists e, exifDateToISOString exifDate = Err e) ->
      t = [] /\ r = Ok true).
Proof.
  split.
  - intros mf t r H. destruct (doesFileSupportExif (outputFilePath mediaFile)) eqn:Hs.
    + apply (executes_verify _ _ _ Hs) in H.
      destruct H as [(e' & H & _) | [[H ->] | (ptt & a & H & _)]]; try discriminate.
      injection H as -> ->. auto.
    + apply (verify_unsupported _ _ _ Hs) in H. destruct H as [H _]. discriminate.
  - intros mf f ptt exifDate t r H Hd.
    destruct (doesFileSupportExif (outputFilePath mediaFile)) eqn:Hs.
    + apply (executes_verify _ _ _ Hs) in H.
      destruct H as [(e' & H & _) | [[H _] | (ptt' & a & H & ->)]]; try discriminate.
      injection H as -> -> -> <- ->. split; [reflexivity|].
      destruct Hd as [-> | (e & ->)]; [rewrite String.eqb_refl|]; reflexivity.
    + apply (verify_unsupported _ _ _ Hs) in H. destruct H as [H _]. discriminate.
Qed.

End WriterAndVerifier.

(* ===================================================================== *)
(** * Further properties of the fallback from a video to an image *)
(* ===================================================================== *)

Section CounterPosition.

Lemma digits_lack_open (ds : string) : allDigits ds = true -> lacks "(" ds = true.
Proof.
  induction ds as [| d ds IH]; cbn [allDigits lacks]; [reflexivity|]. intros H.
  apply andb_true_iff in H. destruct H as [Hd Hds].
  rewrite (digit_not_open d Hd), (IH Hds). reflexivity.
Qed.

(** A counter that ends the input begins nowhere but at its parenthesis. *)
Lemma counter_not_earlier (u ds ds2 : string) :
  u <> "" -> allDigits ds2 = true ->
  u ++ "(" ++ ds ++ ")" <> "(" ++ ds2 ++ ")".
Proof.
  intros Hu Hds2 Heq. destruct u as [| a u]; [contradiction|].
  simpl in Heq. injection Heq as _ Heq.
  apply (f_equal (lacks "(")) in Heq.
  rewrite !lacks_append, (digits_lack_open ds2 Hds2) in Heq.
  simpl in Heq. rewrite andb_false_r in Heq. discriminate.
Qed.

Lemma matchAt_counter_Eos (ms : list nat) (x : string) (pos : nat) m :
  matchAt [lit "("; Plus digit; lit ")"; Eos] x pos ms = Some m <->
  exists ds, x = "(" ++ ds ++ ")" /\ ds <> "" /\ allDigits ds = true
             /\ m = (pos + String.length ds + 2, ms).
Proof.
  rewrite matchAt_counter. split.
  - intros (ds & y & -> & Hne & Hds & Hy). apply matchAt_Eos in Hy.
    destruct Hy as [-> ->]. exists ds. auto.
  - intros (ds & -> & Hne & Hds & ->). exists ds, "". repeat split; auto.
Qed.

Lemma matchAt_counter_earlier (ms : list nat) (u ds : string) (pos : nat) :
  u <> "" ->
  matchAt [lit "("; Plus digit; lit ")"; Eos] (u ++ "(" ++ ds ++ ")") pos ms = None.
Proof.
  intros Hu. destruct (matchAt _ _ pos ms) as [m |] eqn:Hm; [| reflexivity].
  apply matchAt_counter_Eos in Hm. destruct Hm as (ds2 & Heq & _ & Hds2 & _).
  destruct (counter_not_earlier u ds ds2 Hu Hds2 Heq).
Qed.

(** [/\(\d+\)$/] finds the counter where it begins, whatever precedes it. *)
Lemma exec_reCounter (pre ds : string) :
  ds <> "" -> allDigits ds = true ->
  Regex.exec reCounter (pre ++ "(" ++ ds ++ ")")
  = Some (MatchResult (String.length pre) (String.length pre + String.length ds + 2) []).
Proof.
  intros Hne Hds. unfold Regex.exec.
  assert (H : forall pos,
             search reCounter (pre ++ "(" ++ ds ++ ")") pos
             = Some (MatchResult (pos + String.length pre)
                       (pos + String.length pre + String.length ds + 2) [])).
  { induction pre as [| a pre IH]; intros pos.
    - assert (Hm : matchAt reCounter ("(" ++ ds ++ ")") pos []
                   = Some (pos + String.length ds + 2, [])).
      { apply matchAt_counter_Eos. exists ds. auto. }
      change ("" ++ "(" ++ ds ++ ")") with (String "(" (ds ++ ")")).
      cbn [search]. change (String "(" (ds ++ ")")) with ("(" ++ ds ++ ")").
      rewrite Hm. simpl String.length. rewrite !Nat.add_0_r. reflexivity.
    - change (String a pre ++ "(" ++ ds ++ ")") with (String a (pre ++ "(" ++ ds ++ ")")).
      cbn [search].
      change (String a (pre ++ "(" ++ ds ++ ")")) with (String a pre ++ "(" ++ ds ++ ")").
      unfold reCounter at 1.
      rewrite (matchAt_counter_earlier [] (String a pre) ds pos) by discriminate.
      rewrite IH. simpl String.length. rewrite !Nat.add_succ_r. reflexivity. }
  apply (H 0).
Qed.

Lemma exec_reCounter_none (stem : string) :
  ~ endsWithCounter stem -> Regex.exec reCounter stem = None.
Proof.
  intros Hno. destruct (Regex.exec reCounter stem) as [m |] eqn:He; [| reflexivity].
  exfalso. apply Hno. apply test_reCounter. unfold Regex.test. rewrite He. reflexivity.
Qed.

(** [^] matches at the start of the input only. *)
Lemma search_Bos (re : regex) (rest : string) (pos : nat) :
  pos <> 0 -> search (Bos :: re) rest pos = None.
Proof.
  revert pos. induction rest as [| c rest IH]; intros pos Hpos; cbn [search matchAt];
    destruct pos as [| pos]; try contradiction; simpl Nat.eqb; cbv iota.
  - reflexivity.
  - apply IH. discriminate.
Qed.

(** The part of the pattern for the base name after [.+?]. *)
Lemma starLazy_base (ms : list nat) (pre ds : string) (pos : nat) :
  singleLine pre = true -> ds <> "" -> allDigits ds = true ->
  starLazy dot (fun rest pos =>
                  matchAt [Mark; lit "("; Plus digit; lit ")"; Eos] rest pos ms)
           (pre ++ "(" ++ ds ++ ")") pos
  = Some (pos + String.length pre + String.length ds + 2,
          ms +++ [pos + String.length pre]).
Proof.
  intros Hpre Hne Hds. revert pos. induction pre as [| a pre IH]; intros pos.
  - change ("" ++ "(" ++ ds ++ ")") with (String "(" (ds ++ ")")).
    cbn [starLazy]. change (String "(" (ds ++ ")")) with ("(" ++ ds ++ ")").
    rewrite matchAt_Mark.
    assert (Hm : matchAt [lit "("; Plus digit; lit ")"; Eos] ("(" ++ ds ++ ")") pos
                   (ms +++ [pos])
                 = Some (pos + String.length ds + 2, ms +++ [pos])).
    { apply matchAt_counter_Eos. exists ds. auto. }
    rewrite Hm. simpl String.length. rewrite !Nat.add_0_r. reflexivity.
  - simpl in Hpre. apply andb_true_iff in Hpre. destruct Hpre as [Ha Hpre].
    change (String a pre ++ "(" ++ ds ++ ")") with (String a (pre ++ "(" ++ ds ++ ")")).
    cbn [starLazy].
    change (String a (pre ++ "(" ++ ds ++ ")")) with (String a pre ++ "(" ++ ds ++ ")").
    rewrite matchAt_Mark.
    rewrite (matchAt_counter_earlier _ (String a pre) ds pos) by discriminate.
    rewrite Ha, (IH Hpre (S pos)). simpl String.length.
    rewrite !Nat.add_succ_r. reflexivity.
Qed.

Lemma starLazy_no_counter (ms : list nat) (x : string) (pos : nat) :
  lacks "(" x = true ->
  starLazy dot (fun rest pos =>
                  matchAt [Mark; lit "("; Plus digit; lit ")"; Eos] rest pos ms) x pos
  = None.
Proof.
  revert pos. induction x as [| c x IH]; intros pos Hx.
  - reflexivity.
  - cbn [lacks] in Hx. apply andb_true_iff in Hx. destruct Hx as [Hc Hx].
    cbn [starLazy]. rewrite matchAt_Mark. cbn [matchAt lit].
    apply negb_true_iff in Hc. rewrite Hc.
    destruct (dot c); [apply IH; exact Hx | reflexivity].
Qed.

(** [/^(.+?)\(\d+\)$/] on a stem that ends with a counter: the group is
    what precedes the counter, when that is not empty and holds no line
    terminator; a stem that is a counter alone does not match. *)
Lemma exec_reBaseName (pre ds : string) :
  pre <> "" -> singleLine pre = true -> ds <> "" -> allDigits ds = true ->
  Regex.exec reBaseName (pre ++ "(" ++ ds ++ ")")
  = Some (MatchResult 0 (String.length pre + String.length ds + 2)
            [0; String.length pre]).
Proof.
  intros Hp Hpre Hne Hds. destruct pre as [| a pre]; [contradiction|].
  simpl in Hpre. apply andb_true_iff in Hpre. destruct Hpre as [Ha Hpre].
  unfold Regex.exec.
  change (String a pre ++ "(" ++ ds ++ ")") with (String a (pre ++ "(" ++ ds ++ ")")).
  cbn [search]. unfold reBaseName at 1. cbn [matchAt Nat.eqb]. rewrite Ha.
  change (starLazy dot _ (pre ++ "(" ++ ds ++ ")") 1)
    with (starLazy dot (fun rest pos =>
                          matchAt [Mark; lit "("; Plus digit; lit ")"; Eos] rest pos
                                  ([] +++ [0]))
                   (pre ++ "(" ++ ds ++ ")") 1).
  rewrite (starLazy_base _ pre ds 1 Hpre Hne Hds). reflexivity.
Qed.

Lemma exec_reBaseName_counter_alone (ds : string) :
  allDigits ds = true -> Regex.exec reBaseName ("(" ++ ds ++ ")") = None.
Proof.
  intros Hds. unfold Regex.exec.
  change ("(" ++ ds ++ ")") with (String "(" (ds ++ ")")).
  cbn [search]. unfold reBaseName at 1. cbn [matchAt Nat.eqb].
  change (dot "(") with true. cbv iota.
  change (starLazy dot _ (ds ++ ")") 1)
    with (starLazy dot (fun rest pos =>
                          matchAt [Mark; lit "("; Plus digit; lit ")"; Eos] rest pos
                                  ([] +++ [0]))
                   (ds ++ ")") 1).
  rewrite starLazy_no_counter.
  - apply search_Bos. discriminate.
  - rewrite lacks_append, (digits_lack_open ds Hds). reflexivity.
Qed.

Lemma starLazy_counter (ms : list nat) (x : string) (pos : nat) m :
  starLazy dot (fun rest pos =>
                  matchAt [Mark; lit "("; Plus digit; lit ")"; Eos] rest pos ms) x pos
  = Some m ->
  endsWithCounter x.
Proof.
  revert pos. induction x as [| c x IH]; intros pos H.
  - discriminate.
  - cbn [starLazy] in H. rewrite matchAt_Mark in H.
    destruct (matchAt [lit "("; Plus digit; lit ")"; Eos] (String c x) pos (ms +++ [pos]))
      as [m' |] eqn:Hm.
    + apply matchAt_counter_Eos in Hm. destruct Hm as (ds & -> & Hne & Hds & _).
      exists "", ("(" ++ ds ++ ")"). split; [reflexivity|]. exists ds. auto.
    + destruct (dot c); [| discriminate].
      destruct (IH _ H) as (pre & cnt & -> & Hcnt).
      exists (String c pre), cnt. auto.
Qed.

Lemma exec_reBaseName_none (stem : string) :
  ~ endsWithCounter stem -> Regex.exec reBaseName stem = None.
Proof.
  intros Hno. unfold Regex.exec. destruct stem as [| a stem]; [reflexivity|].
  cbn [search]. unfold reBaseName at 1. cbn [matchAt Nat.eqb].
  destruct (dot a).
  - destruct (starLazy dot _ stem 1) as [m |] eqn:Hs.
    + exfalso. apply Hno. destruct (starLazy_counter _ _ _ _ Hs) as (pre & cnt & -> & Hcnt).
      exists (String a pre), cnt. auto.
    + apply search_Bos. discriminate.
  - apply search_Bos. discriminate.
Qed.

End CounterPosition.

Section ImageSiblings.

Variable path : PathModule.
Variable fs : FileSystem.

Lemma counter_length (ds : string) : String.length ("(" ++ ds ++ ")") = String.length ds + 2.
Proof. simpl. rewrite length_append. simpl. lia. Qed.

(** X17. The sidecars of the image that has the name of the video (case 1
    of the fallback), in a file system that does not change.  Nothing is
    tried unless [stem ++ imgExt] exists.  If it does, a stem without a
    counter tries [stem ++ imgExt ++ .json] and then
    [stem ++ imgExt ++ .supplemental-metadata.json]; a stem [pre(n)] tries
    before them [pre ++ imgExt ++ .supplemental-metadata(n).json], whatever
    [pre] is. *)
Theorem same_name_image_sidecars (dir stem imgExt : string) :
  (fsExists fs (resolve path dir (stem ++ imgExt)) = false ->
   run (fsAnswer fs) (sameCounterImage path dir stem imgExt) = Normal)
  /\ (fsExists fs (resolve path dir (stem ++ imgExt)) = true ->
      ~ endsWithCounter stem ->
      run (fsAnswer fs) (sameCounterImage path dir stem imgExt)
      = firstExisting fs
          (inDirectory path dir
             [ stem ++ imgExt ++ ".json";
               stem ++ imgExt ++ ".supplemental-metadata.json" ]))
  /\ (forall pre ds,
        fsExists fs (resolve path dir (stem ++ imgExt)) = true ->
        stem = pre ++ "(" ++ ds ++ ")" -> ds <> "" -> allDigits ds = true ->
        run (fsAnswer fs) (sameCounterImage path dir stem imgExt)
        = firstExisting fs
            (inDirectory path dir
               [ pre ++ imgExt ++ ".supplemental-metadata" ++ "(" ++ ds ++ ")" ++ ".json";
                 stem ++ imgExt ++ ".json";
                 stem ++ imgExt ++ ".supplemental-metadata.json" ])).
Proof.
  split; [| split].
  - intros He. rewrite run_sameCounterImage. unfold priority6a. rewrite He. reflexivity.
  - intros He Hno. rewrite run_sameCounterImage. unfold priority6a.
    rewrite He, (exec_reCounter_none stem Hno). reflexivity.
  - intros pre ds He -> Hne Hds. rewrite run_sameCounterImage. unfold priority6a.
    rewrite He, (exec_reCounter pre ds Hne Hds).
    unfold matched, Js.sliceTo, Js.slice. cbn [index matchEnd].
    rewrite substring_prefix.
    replace (String.length pre + String.length ds + 2 - String.length pre)
      with (String.length ("(" ++ ds ++ ")")) by (rewrite counter_length; lia).
    rewrite substring_suffix. cbn [app]. rewrite !append_assoc. reflexivity.
Qed.

(** X18. The sidecars of the image without the counter of the video (case
    2 of the fallback).  A stem without a counter, or one that is a counter
    alone, makes no call.  A stem [pre(n)] with a non-empty [pre] that holds
    no line terminator tries, when [pre ++ imgExt] exists,
    [pre ++ imgExt ++ .supplemental-metadata.json] and then
    [pre ++ imgExt ++ .json]: the opposite order of case 1. *)
Theorem base_image_sidecars (dir stem imgExt : string) :
  (~ endsWithCounter stem -> baseImage path dir stem imgExt = Ret Normal)
  /\ (forall ds, stem = "(" ++ ds ++ ")" -> allDigits ds = true ->
                 baseImage path dir stem imgExt = Ret Normal)
  /\ (forall pre ds,
        stem = pre ++ "(" ++ ds ++ ")" ->
        pre <> "" -> singleLine pre = true -> ds <> "" -> allDigits ds = true ->
        run (fsAnswer fs) (baseImage path dir stem imgExt)
        = if fsExists fs (resolve path dir (pre ++ imgExt))
          then firstExisting fs
                 (inDirectory path dir
                    [ pre ++ imgExt ++ ".supplemental-metadata.json";
                      pre ++ imgExt ++ ".json" ])
          else Normal).
Proof.
  split; [| split].
  - intros Hno. unfold baseImage. rewrite (exec_reBaseName_none stem Hno). reflexivity.
  - intros ds -> Hds. unfold baseImage.
    rewrite (exec_reBaseName_counter_alone ds Hds). reflexivity.
  - intros pre ds -> Hp Hpre Hne Hds. rewrite run_baseImage. unfold priority6b.
    rewrite (exec_reBaseName pre ds Hp Hpre Hne Hds).
    unfold group, Js.slice. cbn [marks nth Nat.mul Nat.add Nat.sub].
    rewrite Nat.sub_0_r, substring_prefix.
    destruct (fsExists fs (resolve path dir (pre ++ imgExt))); reflexivity.
Qed.

End ImageSiblings.

(* ===================================================================== *)
(** * The further properties at concrete inputs *)
(* ===================================================================== *)


Lemma resolver_lists_only_the_media_directory_witness :
  (forall d,
      In d (listings [ Existence "/d/note.json" false;
                       Existence "/d/note.txt.json" false;
                       Existence "/d/note.txt.supplemental-metadata.json" false;
                       Listing "/d" (Err (Error "EACCES"));
                       Listing "/d" (Err (Error "EACCES"));
                       Listing "/d" (Err (Error "EACCES")) ]) ->
      d = dirname (Posix.pathModule "/") "/d/note.txt")
  /\ List.length (listings [ Existence "/d/note.json" false;
                             Existence "/d/note.txt.json" false;
                             Existence "/d/note.txt.supplemental-metadata.json" false;
                             Listing "/d" (Err (Error "EACCES"));
                             Listing "/d" (Err (Error "EACCES"));
                             Listing "/d" (Err (Error "EACCES")) ]) <= 3.
Proof.
  apply (resolver_lists_only_the_media_directory (Posix.pathModule "/") "/d/note.txt"
           [ Existence "/d/note.json" false;
             Existence "/d/note.txt.json" false;
             Existence "/d/note.txt.supplemental-metadata.json" false;
             Listing "/d" (Err (Error "EACCES"));
             Listing "/d" (Err (Error "EACCES"));
             Listing "/d" (Err (Error "EACCES")) ]
           (Return None)).
  apply (executes_by_run (fsAnswer (unreadableDirectory "/d" ["note.txt"])));
    vm_compute; reflexivity.
Defined.

Lemma scans_return_first_listed_match_witness :
  run (fsAnswer (directory "/d" [ "a.txt"; "IMG.jpg.supplemental-metadata.json";
                                  "IMG.png.supplemental-metadata.json" ]))
      (supplementalScan (Posix.pathModule "/") "/d" "IMG")
  = Return (Some (resolve (Posix.pathModule "/") "/d"
                    "IMG.jpg.supplemental-metadata.json")).
Proof.
  apply (proj1 (scans_return_first_listed_match (Posix.pathModule "/")
                  (directory "/d" [ "a.txt"; "IMG.jpg.supplemental-metadata.json";
                                    "IMG.png.supplemental-metadata.json" ])
                  "/d" "IMG" ["a.txt"] ["IMG.png.supplemental-metadata.json"]
                  "IMG.jpg.supplemental-metadata.json" eq_refl eq_refl)).
  - reflexivity.
  - intros f [<- | []]. left. reflexivity.
Defined.

Lemma supplemental_scan_returns_prefixed_entry_witness :
  exists files middle t',
    [ Listing "/d" (Ok ["IMG_0201.HEIC.supplemental-metadata.json"]);
      Existence "/d/IMG_0201.HEIC.supplemental-metadata.json" true ]
    = Listing "/d" (Ok files) :: t'
    /\ In ("IMG_0201" ++ middle) files
    /\ "/d/IMG_0201.HEIC.supplemental-metadata.json"
       = resolve (Posix.pathModule "/") "/d" ("IMG_0201" ++ middle)
    /\ exists pre, "IMG_0201" ++ middle = pre ++ ".supplemental-metadata.json".
Proof.
  apply (supplemental_scan_returns_prefixed_entry (Posix.pathModule "/") "/d" "IMG_0201"
           "/d/IMG_0201.HEIC.supplemental-metadata.json").
  apply (executes_by_run
           (fsAnswer (directory "/d" ["IMG_0201.HEIC.supplemental-metadata.json"])));
    vm_compute; reflexivity.
Defined.

Lemma truncation_scan_returns_prefix_of_stem_witness :
  (exists files base rest t',
      [ Listing "/d" (Ok ["talk_high.mp4"; "talk.json"]);
        Existence "/d/talk.json" true ]
      = Listing "/d" (Ok files) :: t'
      /\ In (base ++ ".json") files
      /\ "/d/talk.json" = resolve (Posix.pathModule "/") "/d" (base ++ ".json")
      /\ "talk_high" = base ++ rest)
  /\ exists p,
       run (fsAnswer (directory "/d" ["x.mp4"; ".json"]))
           (truncationScan (Posix.pathModule "/") "/d" "x")
       = Return (Some p).
Proof.
  split.
  - apply (proj1 (truncation_scan_returns_prefix_of_stem (Posix.pathModule "/"))
             "/d" "talk_high" "/d/talk.json").
    apply (executes_by_run (fsAnswer (directory "/d" ["talk_high.mp4"; "talk.json"])));
      vm_compute; reflexivity.
  - apply (proj2 (truncation_scan_returns_prefix_of_stem (Posix.pathModule "/"))
             (directory "/d" ["x.mp4"; ".json"]) "/d" "x" ["x.mp4"; ".json"]).
    + reflexivity.
    + right. left. reflexivity.
    + reflexivity.
Defined.

Lemma successful_write_makes_two_calls_witness :
  @nil (exifEvent string) = [] /\ Ok tt = Ok tt
  /\ "/out/a.jpg" = outputFilePath sampleFileInfo
  /\ "/out/a.jpg_original" = outputFilePath sampleFileInfo ++ "_original"
  /\ exists isoString,
       Ok "2020-01-01T00:00:00.000Z" = Ok isoString
       /\ [("DateTimeOriginal", "2020-01-01 00:00:00.000+00:00")]
          = metadataTagsFor
              (Js.toLowerCase (extname (Posix.pathModule "/") (outputFilePath sampleFileInfo)))
              (utcFormatted isoString).
Proof.
  apply (successful_write_makes_two_calls string (Posix.pathModule "/") (fun _ => true)
           (fun s => Ok s) sampleFileInfo "2020-01-01T00:00:00.000Z" "/errors").
  apply (executes_by_run (exifAnswer (sampleWorld (Ok tt) (Ok tt) (Ok tt) (Ok None))));
    vm_compute; reflexivity.
Defined.

Lemma invalid_date_is_quarantined_witness :
  executes (updateExifMetadata string (Posix.pathModule "/") (fun _ => true)
              (fun _ => Err (Error "RangeError: Invalid time value"))
              sampleFileInfo "no date" "/errors")
           [ Copied "/out/a.jpg" "/errors/a.jpg" (Ok tt);
             Copied "/in/a.jpg.json" "/errors/a.jpg.json" (Ok tt) ]
           (Ok tt)
  <-> exists c,
        executes (copyToErrorDir string (Posix.pathModule "/") sampleFileInfo "/errors")
                 [ Copied "/out/a.jpg" "/errors/a.jpg" (Ok tt);
                   Copied "/in/a.jpg.json" "/errors/a.jpg.json" (Ok tt) ]
                 c
        /\ Ok tt = settle tt c.
Proof.
  apply (invalid_date_is_quarantined string (Posix.pathModule "/") (fun _ => true)
           (fun _ => Err (Error "RangeError: Invalid time value"))
           sampleFileInfo "no date" "/errors"
           (Error "RangeError: Invalid time value")); reflexivity.
Defined.


Lemma verifier_throws_the_json_error_witness :
  @nil (exifEvent string) = [] /\ Err (Error "bad JSON") = Err (A := bool) (Error "bad JSON")
  /\ sampleFileInfo = sampleFileInfo.
Proof.
  apply (verifier_throws_the_json_error string (fun _ => true) (fun s => Ok s)
           sampleFileInfo sampleFileInfo (Error "bad JSON") []).
  apply (executes_by_run
           (exifAnswer {| onWrite := fun _ _ => Ok tt;
                          onRead := fun _ => Ok (@None string);
                          onUnlink := fun _ => Ok tt;
                          onCopy := fun _ _ => Ok tt;
                          onJsonRead := fun _ => Err (Error "bad JSON") |}));
    vm_compute; reflexivity.
Defined.

Lemma verifier_false_means_absent_or_different_witness :
  exists photoTakenTime a,
    [ JsonRead sampleFileInfo (Ok (Some "2020-01-01T00:00:00.000Z"));
      Read "/out/a.jpg" (Ok (Some "2019-12-31T23:00:00.000Z")) ]
    = [ JsonRead sampleFileInfo (Ok (Some photoTakenTime));
        Read (outputFilePath sampleFileInfo) (Ok a) ]
    /\ (a = None
        \/ exists exifDate exifDateIso,
             a = Some exifDate
             /\ Ok exifDate = Ok exifDateIso
             /\ exifDateIso <> photoTakenTime).
Proof.
  apply (verifier_false_means_absent_or_different string (fun _ => true) (fun s => Ok s)
           sampleFileInfo).
  apply (executes_by_run
           (exifAnswer (sampleWorld (Ok tt) (Ok tt) (Ok tt)
                          (Ok (Some "2019-12-31T23:00:00.000Z")))));
    vm_compute; reflexivity.
Defined.

Lemma verifier_true_cases_witness :
  (@nil (exifEvent string) = [] /\ Ok true = Ok true)
  /\ (@nil (exifEvent string) = [] /\ Ok true = Ok true).
Proof.
  split.
  - apply (proj1 (verifier_true_cases string (fun _ => true) (fun s => Ok s) sampleFileInfo)
             sampleFileInfo [] (Ok true)).
    apply (executes_by_run
             (exifAnswer {| onWrite := fun _ _ => Ok tt;
                            onRead := fun _ => Ok (@None string);
                            onUnlink := fun _ => Ok tt;
                            onCopy := fun _ _ => Ok tt;
                            onJsonRead := fun _ => Ok None |}));
      vm_compute; reflexivity.
  - apply (proj2 (verifier_true_cases string (fun _ => true) (fun s => Ok s) sampleFileInfo)
             sampleFileInfo "/out/a.jpg" "2020-01-01T00:00:00.000Z"
             "2020-01-01T00:00:00.000Z" [] (Ok true)).
    + apply (executes_by_run
               (exifAnswer (sampleWorld (Ok tt) (Ok tt) (Ok tt)
                              (Ok (Some "2020-01-01T00:00:00.000Z")))));
        vm_compute; reflexivity.
    + left. reflexivity.
Defined.

Lemma same_name_image_sidecars_witness :
  run (fsAnswer (directory "/d" [ "clip(2).mp4"; "clip(2).jpg";
                                  "clip.jpg.supplemental-metadata(2).json" ]))
      (sameCounterImage (Posix.pathModule "/") "/d" ("clip" ++ "(" ++ "2" ++ ")") ".jpg")
  = firstExisting (directory "/d" [ "clip(2).mp4"; "clip(2).jpg";
                                    "clip.jpg.supplemental-metadata(2).json" ])
      (inDirectory (Posix.pathModule "/") "/d"
         [ "clip" ++ ".jpg" ++ ".supplemental-metadata" ++ "(" ++ "2" ++ ")" ++ ".json";
           ("clip" ++ "(" ++ "2" ++ ")") ++ ".jpg" ++ ".json";
           ("clip" ++ "(" ++ "2" ++ ")") ++ ".jpg" ++ ".supplemental-metadata.json" ]).
Proof.
  apply (proj2 (proj2 (same_name_image_sidecars (Posix.pathModule "/")
                         (directory "/d" [ "clip(2).mp4"; "clip(2).jpg";
                                           "clip.jpg.supplemental-metadata(2).json" ])
                         "/d" ("clip" ++ "(" ++ "2" ++ ")") ".jpg"))
           "clip" "2");
    [reflexivity | reflexivity | discriminate | reflexivity].
Defined.

Lemma base_image_sidecars_witness :
  run (fsAnswer (directory "/d" [ "clip(2).mp4"; "clip.jpg";
                                  "clip.jpg.supplemental-metadata.json" ]))
      (baseImage (Posix.pathModule "/") "/d" ("clip" ++ "(" ++ "2" ++ ")") ".jpg")
  = (if fsExists (directory "/d" [ "clip(2).mp4"; "clip.jpg";
                                   "clip.jpg.supplemental-metadata.json" ])
                 (resolve (Posix.pathModule "/") "/d" ("clip" ++ ".jpg"))
     then firstExisting (directory "/d" [ "clip(2).mp4"; "clip.jpg";
                                          "clip.jpg.supplemental-metadata.json" ])
            (inDirectory (Posix.pathModule "/") "/d"
               [ "clip" ++ ".jpg" ++ ".supplemental-metadata.json";
                 "clip" ++ ".jpg" ++ ".json" ])
     else Normal).
Proof.
  apply (proj2 (proj2 (base_image_sidecars (Posix.pathModule "/")
                         (directory "/d" [ "clip(2).mp4"; "clip.jpg";
                                           "clip.jpg.supplemental-metadata.json" ])
                         "/d" ("clip" ++ "(" ++ "2" ++ ")") ".jpg"))
           "clip" "2");
    [reflexivity | discriminate | reflexivity | discriminate | reflexivity].
Defined.
